(** * Bark frontend: submission, event-stream decoding and job registry

    A shallow embedding of the TypeScript client of the Bark synthesis
    service ([frontend/src/api.ts] and [frontend/src/main.ts]) together with
    the properties its specification states about it.

    - [JS] models the pieces of the JavaScript platform the code calls:
      strings as sequences of UTF-16 code units with [split], [trim],
      [startsWith], [replace] and [includes]; numbers as binary64 floats;
      parsed JSON values; the streaming UTF-8 [TextDecoder].
    - [JSMore] adds [join] and the conversions [ToString] and [ToNumber].
    - [Api] embeds [parseSseChunk] and [createSynthesisJob], [ApiRest]
      [fetchJson] and [pollJob].
    - [Main] embeds [buildPayload], [validate], [toJobStatus], [upsertJob],
      [updateJobProgress], the [onEvent] callback and [handlePrompt].

    The page is not modelled: what the code draws (the job list, the
    response summary, toasts, the log) is left out. *)

From Stdlib Require Import ZArith NArith List Bool Floats Lia.
From Stdlib Require Import Init.Byte DecimalString.
From stdpp Require Import base option list strings gmap.
From Equations Require Import Equations.

Set Default Proof Using "Type".
#[global] Set Warnings "-register-all,-inexact-float".

(** ** The JavaScript platform *)

Module JS.

(** A JavaScript string is a sequence of UTF-16 code units. *)
Definition jsstring := list N.

(** An ASCII literal of the source, as a JavaScript string. *)
Definition lit (s : string) : jsstring :=
  map Ascii.N_of_ascii (String.list_ascii_of_string s).

Definition LF : N := 10%N.

(** [strip_prefix p s] is the rest of [s] after its prefix [p], if [s]
    starts with [p]. *)
Fixpoint strip_prefix (p s : jsstring) : option jsstring :=
  match p, s with
  | [], _ => Some s
  | _ :: _, [] => None
  | a :: p', b :: s' => if N.eqb a b then strip_prefix p' s' else None
  end.

(** [String.prototype.startsWith]. *)
Definition startsWith (s p : jsstring) : bool :=
  match strip_prefix p s with Some _ => true | None => false end.

(** The text before and after the leftmost occurrence of [pat] in [s]
    (what [indexOf] locates). *)
Fixpoint break_at (pat s : jsstring) : option (jsstring * jsstring) :=
  match strip_prefix pat s with
  | Some rest => Some ([], rest)
  | None =>
      match s with
      | [] => None
      | c :: s' =>
          match break_at pat s' with
          | Some (a, b) => Some (c :: a, b)
          | None => None
          end
      end
  end.

(** [String.prototype.includes]. *)
Definition includes (s pat : jsstring) : bool :=
  match break_at pat s with Some _ => true | None => false end.

(** [String.prototype.replace] with a string pattern: only the leftmost
    occurrence is replaced. (The replacement used by the source is the empty
    string, so no [$]-pattern of the replacement is involved.) *)
Definition replace (s pat by_ : jsstring) : jsstring :=
  match break_at pat s with
  | Some (a, b) => a ++ by_ ++ b
  | None => s
  end.

Definition inspect {A : Type} (a : A) : {b : A | a = b} := exist _ a eq_refl.

(** [String.prototype.split] with a string separator and no limit: the
    pieces between the successive leftmost occurrences of the separator; an
    empty separator splits into the single code units. *)
Equations split (sep s : jsstring) : list jsstring by wf (length s) lt :=
  split [] s := map (fun c => [c]) s;
  split (c :: sep) s with inspect (break_at (c :: sep) s) => {
    | exist _ (Some (a, b)) _ => a :: split (c :: sep) b;
    | exist _ None _ => [s] }.
Next Obligation.
  match goal with H : break_at _ _ = Some _ |- _ => rename H into E end.
  clear - E.
  assert (Hstrip : forall p u r, strip_prefix p u = Some r ->
                                 (length r <= length u)%nat).
  { induction p as [|x p IH]; intros [|y t] r; simpl; intros H;
      try (injection H as <-; simpl; lia); try discriminate.
    destruct (N.eqb x y); [|discriminate]. apply IH in H. lia. }
  revert a b E. induction s as [|d s IH]; intros a b; simpl.
  - discriminate.
  - destruct (N.eqb c d).
    + destruct (strip_prefix sep s) as [r|] eqn:E.
      * intros H. injection H as <- <-. apply Hstrip in E. lia.
      * destruct (break_at (c :: sep) s) as [[a' b']|]; [|discriminate].
        intros H. injection H as <- <-. specialize (IH _ _ eq_refl). lia.
    + destruct (break_at (c :: sep) s) as [[a' b']|]; [|discriminate].
      intros H. injection H as <- <-. specialize (IH _ _ eq_refl). lia.
Qed.

(** White space and line terminators of ECMAScript, the code units that
    [trim] removes. *)
Definition is_space (c : N) : bool :=
  ((9 <=? c) && (c <=? 13) || (c =? 32) || (c =? 160) || (c =? 5760)
   || (8192 <=? c) && (c <=? 8202) || (c =? 8232) || (c =? 8233)
   || (c =? 8239) || (c =? 8287) || (c =? 12288) || (c =? 65279))%N.

Fixpoint trimStart (s : jsstring) : jsstring :=
  match s with
  | c :: s' => if is_space c then trimStart s' else s
  | [] => []
  end.

Definition trimEnd (s : jsstring) : jsstring := rev (trimStart (rev s)).

(** [String.prototype.trim]. *)
Definition trim (s : jsstring) : jsstring := trimEnd (trimStart s).

(** *** Numbers

    A JavaScript number is a binary64 float; comparisons with [NaN] are
    false, as [PrimFloat.ltb] and [PrimFloat.leb] have it. *)

Definition number := float.

(** [ToBoolean] on a number: [0], [-0] and [NaN] are falsy. *)
Definition truthy_number (x : number) : bool :=
  negb (PrimFloat.is_zero x || PrimFloat.is_nan x).

(** [Math.min] on two numbers: [NaN] if either is [NaN], and [-0] is
    smaller than [+0]. *)
Definition Math_min (x y : number) : number :=
  if PrimFloat.is_nan x || PrimFloat.is_nan y then PrimFloat.nan
  else if PrimFloat.ltb x y then x
  else if PrimFloat.ltb y x then y
  else if PrimFloat.is_zero x && PrimFloat.get_sign x then x
  else y.

(** The number of a string length or of another small natural. *)
Definition number_of_nat (n : nat) : number :=
  PrimFloat.of_uint63 (Uint63.of_Z (Z.of_nat n)).

(** *** Parsed JSON

    The values [JSON.parse] and [Response.json] produce. An object lists its
    properties in insertion order, each key once. *)

Inductive json : Type :=
| JNull
| JBool (b : bool)
| JNum (x : number)
| JStr (s : jsstring)
| JArr (items : list json)
| JObj (props : list (jsstring * json)).

(** [ToBoolean] on a parsed value. *)
Definition truthy (v : json) : bool :=
  match v with
  | JNull => false
  | JBool b => b
  | JNum x => truthy_number x
  | JStr s => match s with [] => false | _ => true end
  | JArr _ | JObj _ => true
  end.

(** [typeof v === 'object'] ([null] included, as in JavaScript). *)
Definition typeof_object (v : json) : bool :=
  match v with
  | JNull | JArr _ | JObj _ => true
  | _ => false
  end.

Definition jsstring_eqb (a b : jsstring) : bool := bool_decide (a = b).

(** Equality of parsed values is decidable: two numbers are equal when
    their binary64 representations are. [v === 'text'] on a value and a
    string literal is this equality. *)
#[global] Instance spec_float_eq_dec : EqDecision spec_float.
Proof. solve_decision. Defined.

#[global] Instance number_eq_dec : EqDecision number.
Proof.
  intros x y. destruct (decide (Prim2SF x = Prim2SF y)) as [H|H].
  - left. by apply Prim2SF_inj.
  - right. by intros ->.
Defined.

#[global] Instance json_eq_dec : EqDecision json.
Proof.
  refine (fix go (v v' : json) {struct v} : Decision (v = v') :=
    match v, v' with
    | JNull, JNull => left eq_refl
    | JBool b, JBool b' => cast_if (decide (b = b'))
    | JNum x, JNum x' => cast_if (decide (x = x'))
    | JStr s, JStr s' => cast_if (decide (s = s'))
    | JArr items, JArr items' =>
        cast_if ((fix go_items (l l' : list json) : Decision (l = l') :=
                    match l, l' with
                    | [], [] => left eq_refl
                    | x :: l, x' :: l' =>
                        match go x x', go_items l l' with
                        | left Hx, left Hl => left _
                        | _, _ => right _
                        end
                    | _, _ => right _
                    end) items items')
    | JObj props, JObj props' =>
        cast_if ((fix go_props (l l' : list (jsstring * json))
                    : Decision (l = l') :=
                    match l, l' with
                    | [], [] => left eq_refl
                    | (k, x) :: l, (k', x') :: l' =>
                        match decide (k = k'), go x x', go_props l l' with
                        | left Hk, left Hx, left Hl => left _
                        | _, _, _ => right _
                        end
                    | _, _ => right _
                    end) props props')
    | _, _ => right _
    end); congruence.
Defined.

Fixpoint assoc {A : Type} (k : jsstring) (l : list (jsstring * A)) : option A :=
  match l with
  | [] => None
  | (k', v) :: l' => if jsstring_eqb k k' then Some v else assoc k l'
  end.

(** Reading the own property [k] of a parsed value: [None] is [undefined].
    (Reading a property of [null] throws; the callers below only read
    properties of values already known to be truthy.) *)
Definition prop (k : string) (v : json) : option json :=
  match v with
  | JObj props => assoc (lit k) props
  | _ => None
  end.

(** *** The streaming text decoder

    [new TextDecoder()] is the UTF-8 decoder of the Encoding Standard, not
    fatal, not ignoring the byte order mark. [decode(chunk, {stream: true})]
    runs the decoder over the bytes of the chunk and keeps its state for the
    next call, so that a character split over two chunks is completed by the
    second. *)

Record Utf8 : Type := {
  code_point : N;
  bytes_seen : N;
  bytes_needed : N;
  lower_boundary : N;
  upper_boundary : N
}.

Definition utf8_start : Utf8 :=
  {| code_point := 0; bytes_seen := 0; bytes_needed := 0;
     lower_boundary := 128; upper_boundary := 191 |}.

Definition REPLACEMENT : N := 65533%N.

(** The decoder on a byte when no character is pending: the new state and
    the code points produced. *)
Definition utf8_lead (b : N) : Utf8 * list N :=
  (if b <=? 127 then (utf8_start, [b])
   else if (194 <=? b) && (b <=? 223) then
     ({| code_point := N.land b 31; bytes_seen := 0; bytes_needed := 1;
         lower_boundary := 128; upper_boundary := 191 |}, [])
   else if (224 <=? b) && (b <=? 239) then
     ({| code_point := N.land b 15; bytes_seen := 0; bytes_needed := 2;
         lower_boundary := if b =? 224 then 160 else 128;
         upper_boundary := if b =? 237 then 159 else 191 |}, [])
   else if (240 <=? b) && (b <=? 244) then
     ({| code_point := N.land b 7; bytes_seen := 0; bytes_needed := 3;
         lower_boundary := if b =? 240 then 144 else 128;
         upper_boundary := if b =? 244 then 143 else 191 |}, [])
   else (utf8_start, [REPLACEMENT]))%N.

(** One byte through the decoder. A byte outside the expected range ends
    the pending character with U+FFFD and is then decoded afresh. *)
Definition utf8_byte (st : Utf8) (b : N) : Utf8 * list N :=
  (if bytes_needed st =? 0 then utf8_lead b
   else if negb ((lower_boundary st <=? b) && (b <=? upper_boundary st)) then
     let '(st', out) := utf8_lead b in (st', REPLACEMENT :: out)
   else
     let cp := N.lor (N.shiftl (code_point st) 6) (N.land b 63) in
     if bytes_seen st + 1 =? bytes_needed st then (utf8_start, [cp])
     else ({| code_point := cp; bytes_seen := bytes_seen st + 1;
              bytes_needed := bytes_needed st;
              lower_boundary := 128; upper_boundary := 191 |}, []))%N.

(** The UTF-16 code units of a code point. *)
Definition utf16 (cp : N) : jsstring :=
  (if cp <? 65536 then [cp]
   else [55296 + N.shiftr (cp - 65536) 10; 56320 + N.land (cp - 65536) 1023])%N.

Record TextDecoder : Type := {
  decoder : Utf8;
  BOM_seen : bool
}.

Definition new_TextDecoder : TextDecoder :=
  {| decoder := utf8_start; BOM_seen := false |}.

(** Serialising the decoder's output: the first code point is dropped if it
    is the byte order mark. *)
Fixpoint serialize (bom_seen : bool) (cps : list N) : bool * jsstring :=
  match cps with
  | [] => (bom_seen, [])
  | cp :: cps' =>
      let '(seen, out) := serialize true cps' in
      (seen, if negb bom_seen && (cp =? 65279)%N then out else utf16 cp ++ out)
  end.

Definition decode_byte (d : TextDecoder) (b : byte) : TextDecoder * jsstring :=
  let '(st, cps) := utf8_byte (decoder d) (Byte.to_N b) in
  let '(seen, out) := serialize (BOM_seen d) cps in
  ({| decoder := st; BOM_seen := seen |}, out).

(** [decoder.decode(chunk, { stream: true })]. *)
Fixpoint decode (d : TextDecoder) (chunk : list byte) : TextDecoder * jsstring :=
  match chunk with
  | [] => (d, [])
  | b :: chunk' =>
      let '(d1, out1) := decode_byte d b in
      let '(d2, out2) := decode d1 chunk' in
      (d2, out1 ++ out2)
  end.

End JS.

(** ** More of the platform *)

Module JSMore.
Import JS.

(** [Array.prototype.join] on an array of strings. *)
Fixpoint join (sep : jsstring) (pieces : list jsstring) : jsstring :=
  match pieces with
  | [] => []
  | piece :: pieces' =>
      match pieces' with
      | [] => piece
      | _ :: _ => piece ++ sep ++ join sep pieces'
      end
  end.

(** *** [ToString] and [ToNumber] on a parsed value

    The conversions [Math.min] and a template literal apply to a value that
    is not of the expected type. A parsed object has no callable [valueOf]
    or [toString] of its own: an array is printed by [join(',')], in which
    [null] prints as the empty string; any other object prints as
    [[object Object]], unless it has a property named [toString], which
    hides the inherited method and makes the conversion throw a
    [TypeError] ([None]). *)

Section Conversions.

(** [Number(s)] on a string. *)
Variable Number : jsstring -> number.

(** [String(x)] on a number. *)
Variable Number_toString : number -> jsstring.

Definition has_own (k : string) (props : list (jsstring * json)) : bool :=
  bool_decide (is_Some (assoc (lit k) props)).

Fixpoint ToString (v : json) : option jsstring :=
  match v with
  | JNull => Some (lit "null")
  | JBool b => Some (lit (if b then "true" else "false"))
  | JNum x => Some (Number_toString x)
  | JStr s => Some s
  | JArr items =>
      join (lit ",") <$>
        (fix elements (l : list json) : option (list jsstring) :=
           match l with
           | [] => Some []
           | item :: l' =>
               piece ← match item with
                        | JNull => Some []
                        | _ => ToString item
                        end;
               pieces ← elements l';
               Some (piece :: pieces)
           end) items
  | JObj props =>
      if has_own "toString" props then None
      else Some (lit "[object Object]")
  end.

Definition ToNumber (v : json) : option number :=
  match v with
  | JNull => Some 0%float
  | JBool b => Some (if b then 1%float else 0%float)
  | JNum x => Some x
  | JStr s => Some (Number s)
  | JArr _ | JObj _ => Number <$> ToString v
  end.

End Conversions.

End JSMore.

(** ** [frontend/src/api.ts] *)

Module Api.
Import JS.

(** What a call can throw, or a promise reject with. *)
Inductive exn : Type :=
| AbortError                 (* the request's signal fired *)
| NetworkFailure             (* [fetch] or a stream read failed *)
| TypeError                  (* a property read of [null] *)
| Error (message : json).    (* [new Error(message)] *)

(** The completion of a call that acts on a state [W]: a normal return, or
    a throw; either way the state is as the call left it. *)
Inductive Completion (W A : Type) : Type :=
| Normal (w : W) (a : A)
| Throw (w : W) (e : exn).
Arguments Normal {W A} w a.
Arguments Throw {W A} w e.

(** The body of a response, as the reads of its reader deliver it: the
    chunks in order, then the end of the stream ([None]) or the rejection of
    the read ([Some e]); an aborted request rejects the pending read with
    [AbortError]. A body that never ends is not modelled. *)
Record ReadableStream : Type := {
  chunks : list (list byte);
  ending : option exn
}.

(** The parts of a [Response] the code reads. [json_body] is what
    [response.json()] resolves to, [None] when it rejects. *)
Record Response : Type := {
  ok : bool;
  content_type : option jsstring;
  body : option ReadableStream;
  json_body : option json
}.

Inductive Fetched : Type :=
| Responded (response : Response)
| Rejected (e : exn).

Definition AbortSignal := N.

Section Api.

(** The state the event sink acts on. *)
Context {W : Type}.

(** [JSON.parse]: [None] when it throws. *)
Variable JSON_parse : jsstring -> option json.

(** [fetch('/api/bark/synthesize', { method: 'POST', body, signal })]: the
    service and the network, as seen from the client. *)
Variable fetch : json -> option AbortSignal -> Fetched.

Definition Sink : Type := json -> W -> Completion W unit.

(** [onEvent?.(data)]. *)
Definition call (onEvent : option Sink) (data : json) (w : W)
  : Completion W unit :=
  match onEvent with
  | Some f => f data w
  | None => Normal w tt
  end.

(** The body of the loop of [parseSseChunk], for one message. *)
Definition parseSseChunk_message (onEvent : option Sink)
    (message : jsstring) (w : W) : Completion W unit :=
  let line :=
    List.find (fun l => startsWith l (lit "data:"))
      (map trim (split [LF] message)) in
  match line with
  | None | Some [] => Normal w tt
  | Some line =>
      let payload := trim (replace line (lit "data:") []) in
      match JSON_parse payload with
      | Some data =>
          match call onEvent data w with
          | Normal w' _ => Normal w' tt
          | Throw w' _ => call onEvent (JStr payload) w'
          end
      | None => call onEvent (JStr payload) w
      end
  end.

Fixpoint parseSseChunk_loop (onEvent : option Sink)
    (messages : list jsstring) (w : W) : Completion W unit :=
  match messages with
  | [] => Normal w tt
  | message :: messages' =>
      match parseSseChunk_message onEvent message w with
      | Normal w' _ => parseSseChunk_loop onEvent messages' w'
      | Throw w' e => Throw w' e
      end
  end.

Definition parseSseChunk (buffer : jsstring) (onEvent : option Sink) (w : W)
  : Completion W jsstring :=
  let messages := split [LF; LF] buffer in
  let remainder := List.last messages [] in
  let messages := removelast messages in
  match parseSseChunk_loop onEvent messages w with
  | Normal w' _ => Normal w' remainder
  | Throw w' e => Throw w' e
  end.

Record Options : Type := {
  signal : option AbortSignal;
  onEvent : option Sink
}.

(** The [while (true)] loop of [createSynthesisJob] over the reads of the
    body. *)
Fixpoint read_loop (opts : Options) (decoder : TextDecoder)
    (buffer : jsstring) (reads : list (list byte)) (ending : option exn)
    (w : W) : Completion W unit :=
  match reads with
  | [] =>
      match ending with
      | None => Normal w tt
      | Some e => Throw w e
      end
  | value :: reads' =>
      let '(decoder', text) := decode decoder value in
      match parseSseChunk (buffer ++ text) (onEvent opts) w with
      | Normal w' buffer' => read_loop opts decoder' buffer' reads' ending w'
      | Throw w' e => Throw w' e
      end
  end.

Definition createSynthesisJob (payload : json) (opts : Options) (w : W)
  : Completion W (option json) :=
  match fetch payload (signal opts) with
  | Rejected e => Throw w e
  | Responded response =>
      let contentType := default [] (content_type response) in
      match includes contentType (lit "text/event-stream"), body response with
      | true, Some stream =>
          match read_loop opts new_TextDecoder [] (chunks stream)
                  (ending stream) w with
          | Normal w' _ => Normal w' None
          | Throw w' e => Throw w' e
          end
      | _, _ =>
          let data := default (JObj []) (json_body response) in
          if negb (ok response) then
            match data with
            | JNull => Throw w TypeError
            | _ =>
                match prop "detail" data with
                | Some detail =>
                    if truthy detail then Throw w (Error detail)
                    else Throw w (Error (JStr (lit "Request failed")))
                | None => Throw w (Error (JStr (lit "Request failed")))
                end
            end
          else Normal w (Some data)
      end
  end.

End Api.

(** A sink that always returns normally. *)
Definition never_throws {W : Type} (onEvent : option (Sink (W := W))) : Prop :=
  forall data w, exists w', call onEvent data w = Normal w' tt.

(** A sink whose throws the [catch] of [parseSseChunk] hides: it returns on
    every raw text, and where a call of it has thrown, the call with the
    raw text that follows returns and changes nothing. A sink that never
    throws is one; so is the callback of [handlePrompt], which ignores
    every string. *)
Definition retry_safe {W : Type} (onEvent : option (Sink (W := W))) : Prop :=
  (forall text w, exists w', call onEvent (JStr text) w = Normal w' tt)
  /\ (forall data w w' e, call onEvent data w = Throw w' e ->
        forall text, call onEvent (JStr text) w' = Normal w' tt).

(** The sink that records what it is handed, in order. *)
Definition record : Sink (W := list json) :=
  fun data seen => Normal (seen ++ [data]) tt.

Definition state_of {W A : Type} (c : Completion W A) : W :=
  match c with
  | Normal w _ => w
  | Throw w _ => w
  end.

(** The payloads the decoding loop of [createSynthesisJob] hands to the
    sink when the body arrives as the reads [reads] and then ends. *)
Definition emitted (JSON_parse : jsstring -> option json)
    (reads : list (list byte)) : list json :=
  state_of (read_loop JSON_parse {| signal := None; onEvent := Some record |}
              new_TextDecoder [] reads None []).

End Api.

(** ** [frontend/src/types.ts] and [frontend/src/main.ts] *)

Module Main.
Import JS Api.

(** [SynthesisResponse['status']]. Nothing checks at run time that a status
    is one of the five strings of the type, and an event can carry any
    value; so a status is a parsed value, and the statuses of the type are
    these five strings. *)
Definition Status : Type := json.

Definition planned : Status := JStr (lit "planned").
Definition queued : Status := JStr (lit "queued").
Definition running : Status := JStr (lit "running").
Definition completed : Status := JStr (lit "completed").
Definition failed : Status := JStr (lit "failed").

(** The statuses the specification calls terminal. *)
Definition terminal (s : Status) : bool :=
  bool_decide (s = completed \/ s = failed).

Record SynthesisPlan : Type := {
  prompt_length : number;
  modalities : list jsstring;
  render_video : bool;
  dry_run : bool;
  video_overrides : option json;
  routing_priorities : option (list (jsstring * number))
}.

Record SynthesisResponse : Type := {
  job_id : jsstring;
  response_status : Status;
  response_plan : SynthesisPlan;
  response_artifacts : list (jsstring * jsstring)
}.

(** Timestamps are the integral milliseconds of [Date.now()]. *)
Record JobState : Type := {
  id : jsstring;
  status : Status;
  plan : SynthesisPlan;
  artifacts : list (jsstring * jsstring);
  progress : number;
  createdAt : Z;
  updatedAt : Z;
  prompt : jsstring
}.

(** *** The unchecked casts of the source

    [data as SynthesisResponse] and
    [data as Partial<SynthesisResponse> & { progress?: number }] check
    nothing at run time. The model reads a parsed value at the type it is
    cast to; [None] is a value that is not of that type. *)

Definition as_string (v : json) : option jsstring :=
  match v with JStr s => Some s | _ => None end.

Definition as_number (v : json) : option number :=
  match v with JNum x => Some x | _ => None end.

Definition as_bool (v : json) : option bool :=
  match v with JBool b => Some b | _ => None end.

Definition as_status (v : json) : option Status :=
  if bool_decide (v ∈ [planned; queued; running; completed; failed])
  then Some v else None.

Definition as_array {A : Type} (f : json -> option A) (v : json)
  : option (list A) :=
  match v with JArr items => mapM f items | _ => None end.

Definition as_record {A : Type} (f : json -> option A) (v : json)
  : option (list (jsstring * A)) :=
  match v with
  | JObj props => mapM (fun kv => pair (fst kv) <$> f (snd kv)) props
  | _ => None
  end.

(** An optional property: absent, or present at its type. *)
Definition optional {A : Type} (f : json -> option A) (o : option json)
  : option (option A) :=
  match o with
  | None => Some None
  | Some v => Some <$> f v
  end.

Definition as_plan (v : json) : option SynthesisPlan :=
  len ← prop "prompt_length" v ≫= as_number;
  mods ← prop "modalities" v ≫= as_array as_string;
  rv ← prop "render_video" v ≫= as_bool;
  dr ← prop "dry_run" v ≫= as_bool;
  vo ← optional (fun o => match o with
                          | JNull | JObj _ => Some o
                          | _ => None
                          end) (prop "video_overrides" v);
  rp ← optional (as_record as_number) (prop "routing_priorities" v);
  Some {| prompt_length := len; modalities := mods; render_video := rv;
          dry_run := dr; video_overrides := vo; routing_priorities := rp |}.

Definition as_SynthesisResponse (v : json) : option SynthesisResponse :=
  i ← prop "job_id" v ≫= as_string;
  s ← prop "status" v ≫= as_status;
  p ← prop "plan" v ≫= as_plan;
  a ← prop "artifacts" v ≫= as_record as_string;
  Some {| job_id := i; response_status := s; response_plan := p;
          response_artifacts := a |}.

(** *** The form and its payload *)

(** The values of the form controls that [buildPayload] reads. *)
Record Form : Type := {
  textPrompt : jsstring;
  videoResolution : jsstring;
  videoFps : jsstring;
  captionText_value : jsstring;
  enableCaptions : bool;
  enableRealtime : bool;
  enableHdAudio : bool;
  textTemp_value : jsstring;
  waveformTemp_value : jsstring;
  outputDir_value : jsstring;
  jobPrefix_value : jsstring;
  dryRunToggle : bool;
  renderVideoToggle : bool
}.

(** [ReturnType<typeof buildPayload>]. *)
Record Payload : Type := {
  text : jsstring;
  resolution : list number;
  fps : number;
  captionText : jsstring;
  captionsEnabled : bool;
  realtime : bool;
  hdAudio : bool;
  textTemp : number;
  waveformTemp : number;
  outputDir : jsstring;
  jobPrefix : jsstring;
  dryRun : bool;
  renderVideo : bool;
  outputPath : option jsstring
}.

(** The rule the specification gives for the resolution: it parses into
    two positive integers. A finite binary64 number [m * 2^e] is an integer
    when [e >= 0] or [2^-e] divides [m]. *)
Definition positive_integer (x : number) : bool :=
  match Prim2SF x with
  | S754_finite false m e =>
      (0 <=? e)%Z || (Z.pos m mod 2 ^ (- e) =? 0)%Z
  | _ => false
  end.

Definition two_positive_integers (resolution : list number) : bool :=
  match resolution with
  | [width; height] => positive_integer width && positive_integer height
  | _ => false
  end.

(** [a || b] on strings: the empty string is falsy. *)
Definition or_string (a b : jsstring) : jsstring :=
  match a with [] => b | _ => a end.

(** [x || y] on numbers. *)
Definition or_number (x y : number) : number :=
  if truthy_number x then x else y.

(** The registry [jobs] and the clock. [Date.now()] reads [clock] at the
    current tick and advances it. *)
Record World : Type := {
  jobs : gmap jsstring JobState;
  ticks : nat
}.

Definition set_jobs (m : gmap jsstring JobState) (w : World) : World :=
  {| jobs := m; ticks := ticks w |}.

Section Main.

(** [Number(s)] on a string. *)
Variable Number : jsstring -> number.

(** [String(x)] on a number. *)
Variable Number_toString : number -> jsstring.

Variable clock : nat -> Z.

Variable JSON_parse : jsstring -> option json.

Variable fetch : json -> option AbortSignal -> Fetched.

Definition Date_now (w : World) : Z * World :=
  (clock (ticks w), {| jobs := jobs w; ticks := S (ticks w) |}).

Definition buildPayload (form : Form) : Payload :=
  let text := trim (textPrompt form) in
  let resolution := map Number (split (lit "x") (videoResolution form)) in
  let fps := Number (videoFps form) in
  let captionText := or_string (trim (captionText_value form)) text in
  let captionsEnabled := enableCaptions form in
  let realtime := enableRealtime form in
  let hdAudio := enableHdAudio form in
  let textTemp := or_number (Number (textTemp_value form)) 0.7%float in
  let waveformTemp := or_number (Number (waveformTemp_value form)) 0.7%float in
  let outputDir := trim (outputDir_value form) in
  let jobPrefix := trim (jobPrefix_value form) in
  let dryRun := dryRunToggle form in
  let renderVideo := renderVideoToggle form in
  let outputPath :=
    match jobPrefix with
    | _ :: _ => Some (or_string outputDir (lit "outputs") ++ lit "/" ++ jobPrefix)
    | [] => match outputDir with _ :: _ => Some outputDir | [] => None end
    end in
  {| text := text; resolution := resolution; fps := fps;
     captionText := captionText; captionsEnabled := captionsEnabled;
     realtime := realtime; hdAudio := hdAudio; textTemp := textTemp;
     waveformTemp := waveformTemp; outputDir := outputDir;
     jobPrefix := jobPrefix; dryRun := dryRun; renderVideo := renderVideo;
     outputPath := outputPath |}.

Definition validate (payload : Payload) : list jsstring :=
  let errors := [] in
  let errors :=
    match text payload with
    | [] => errors ++ [lit "Prompt cannot be empty."]
    | _ => errors
    end in
  let errors :=
    if PrimFloat.ltb (textTemp payload) 0%float
       || PrimFloat.ltb 1.5%float (textTemp payload)
    then errors ++ [lit "Text temperature must be 0-1.5."] else errors in
  let errors :=
    if PrimFloat.ltb (waveformTemp payload) 0%float
       || PrimFloat.ltb 1.5%float (waveformTemp payload)
    then errors ++ [lit "Waveform temperature must be 0-1.5."] else errors in
  let errors :=
    if PrimFloat.leb (fps payload) 0%float
    then errors ++ [lit "FPS must be greater than zero."] else errors in
  errors.

(** *** The job registry *)

Definition toJobStatus (data : option SynthesisResponse)
    (fallbackId prompt : jsstring) (w : World) : JobState * World :=
  let base :=
    match data with
    | Some data => data
    | None =>
        {| job_id := fallbackId;
           response_status := queued;
           response_plan :=
             {| prompt_length := number_of_nat (length prompt);
                modalities := [lit "audio"];
                render_video := false;
                dry_run := true;
                video_overrides := None;
                routing_priorities := None |};
           response_artifacts := [] |}
    end in
  let '(created, w) := Date_now w in
  let '(updated, w) := Date_now w in
  ({| id := job_id base;
      status := response_status base;
      plan := response_plan base;
      artifacts := response_artifacts base;
      progress :=
        if decide (response_status base = completed) then 100%float
        else 10%float;
      createdAt := created;
      updatedAt := updated;
      prompt := prompt |}, w).

(** [jobs.set(job.id, job)]. The call of [renderJobs] that follows draws
    the registry and writes nothing to it; it is left out. *)
Definition upsertJob (job : JobState) (w : World) : World :=
  set_jobs (<[id job := job]> (jobs w)) w.

(** [current] is the object stored under [id]: the assignments change that
    entry in place, and [upsertJob] then stores the same object under its
    own [id]. [status_] is [None] for [undefined]; [if (status)] stores any
    truthy value. [progress_] is a number here: [Math.min] converts what it
    is given before anything is assigned, and the one caller that can pass
    something else, the callback of [handlePrompt], is modelled with that
    conversion ([event_progress]). *)
Definition updateJobProgress (id_ : jsstring) (progress_ : number)
    (status_ : option Status) (w : World) : World :=
  match jobs w !! id_ with
  | None => w
  | Some current =>
      let '(now, w) := Date_now w in
      let current :=
        {| id := id current;
           status := match status_ with
                     | Some s => if truthy s then s else status current
                     | None => status current
                     end;
           plan := plan current;
           artifacts := artifacts current;
           progress := Math_min progress_ 100%float;
           createdAt := createdAt current;
           updatedAt := now;
           prompt := prompt current |} in
      upsertJob current (set_jobs (<[id_ := current]> (jobs w)) w)
  end.

(** [event.progress ?? 50], as [Math.min] reads it in [updateJobProgress]:
    [??] replaces only [undefined] and [null], and [Math.min] converts any
    other value to a number. [None] is the [TypeError] of a value that
    cannot be converted. *)
Definition event_progress (event : json) : option number :=
  match prop "progress" event with
  | None | Some JNull => Some 50%float
  | Some progress_ => JSMore.ToNumber Number Number_toString progress_
  end.

(** [event.status], [None] for [undefined]. *)
Definition event_status (event : json) : option Status :=
  prop "status" event.

(** The [onEvent] callback that [handlePrompt] passes to
    [createSynthesisJob]. The keys of [jobs] are strings, so [jobs.has] of
    another value is false. When the progress cannot be converted,
    [Math.min] throws before [updateJobProgress] has assigned anything. *)
Definition handlePrompt_onEvent (data : json) (w : World)
  : Completion World unit :=
  if negb (truthy data) || negb (typeof_object data) then Normal w tt
  else
    let event := data in
    match prop "job_id" event with
    | Some (JStr job_id) =>
        if truthy (JStr job_id) && bool_decide (is_Some (jobs w !! job_id))
        then
          match event_progress event with
          | Some progress_ =>
              Normal (updateJobProgress job_id progress_
                        (event_status event) w) tt
          | None => Throw w TypeError
          end
        else Normal w tt
    | _ => Normal w tt
    end.

(** The decimal digits of a timestamp, as a template literal prints it. *)
Definition decimal (z : Z) : jsstring :=
  lit (NilZero.string_of_int (Z.to_int z)).

Definition requestBody (payload : Payload) : json :=
  JObj ([(lit "prompt", JStr (text payload));
         (lit "caption_text", JStr (captionText payload));
         (lit "modalities",
          JArr (if renderVideo payload
                then [JStr (lit "audio"); JStr (lit "video")]
                else [JStr (lit "audio")]));
         (lit "render_video", JBool (renderVideo payload));
         (lit "dry_run", JBool (dryRun payload))]
        ++ match outputPath payload with
           | Some path => [(lit "output_path", JStr path)]
           | None => []
           end
        ++ [(lit "text_temp", JNum (textTemp payload));
            (lit "waveform_temp", JNum (waveformTemp payload));
            (lit "video",
             JObj [(lit "resolution", JArr (map JNum (resolution payload)));
                   (lit "fps", JNum (fps payload));
                   (lit "enable_captions", JBool (captionsEnabled payload));
                   (lit "realtime_layering", JBool (realtime payload));
                   (lit "audio_bitrate",
                    JStr (lit (if hdAudio payload then "320k" else "160k")));
                   (lit "video_bitrate",
                    JStr (lit (if renderVideo payload then "28M" else "10M")));
                   (lit "codec", JStr (lit "libx264"));
                   (lit "audio_codec", JStr (lit "aac"))])]).

(** The value [createSynthesisJob] resolves to, read at its declared type
    [SynthesisResponse | null]. A falsy value is treated as [null] by
    [data || {...}] and [result?.status]. *)
Definition as_result (result : option json)
  : option (option SynthesisResponse) :=
  match result with
  | None => Some None
  | Some data =>
      if truthy data then Some <$> as_SynthesisResponse data else Some None
  end.

(** The statements of [handlePrompt] after [createSynthesisJob] has
    resolved to [result]. *)
Definition handlePrompt_resolved (result : option SynthesisResponse)
    (tempId text : jsstring) (w : World) : World :=
  let '(job, w) := toJobStatus result tempId text w in
  let job :=
    {| id := id job; status := status job; plan := plan job;
       artifacts := artifacts job;
       progress :=
         match result with
         | Some r =>
             if decide (response_status r = completed) then 100%float
             else progress job
         | None => progress job
         end;
       createdAt := createdAt job; updatedAt := updatedAt job;
       prompt := prompt job |} in
  upsertJob job w.

(** The [catch] clause of [handlePrompt]. *)
Definition handlePrompt_rejected (tempId : jsstring) (w : World) : World :=
  updateJobProgress tempId 100%float (Some failed) w.

(** The state [handlePrompt] submits from: the placeholder id and the
    registry with the placeholder record. *)
Definition handlePrompt_submit (text : jsstring) (w : World)
  : jsstring * World :=
  let '(now, w) := Date_now w in
  let tempId := lit "job-" ++ decimal now in
  let '(job, w) := toJobStatus None tempId text w in
  (tempId, upsertJob job w).

(** [handlePrompt], as far as the registry goes: logging, toasts, the
    response summary and the audio playback are left out. The registry of
    the model holds records of the declared type under string ids; the
    result is [None] when the service answers with a truthy document that
    is not a [SynthesisResponse]. (The code then stores a record with
    [undefined] fields under [data.job_id], and what follows depends on the
    page: [renderJobs] reads [job.plan.render_video] of every record.) *)
Definition handlePrompt (form : Form) (w : World) : option World :=
  let payload := buildPayload form in
  let errors := validate payload in
  match errors with
  | _ :: _ => Some w
  | [] =>
      let '(tempId, w) := handlePrompt_submit (text payload) w in
      match createSynthesisJob JSON_parse fetch (requestBody payload)
              {| signal := None; onEvent := Some handlePrompt_onEvent |} w with
      | Normal w result =>
          result ← as_result result;
          Some (handlePrompt_resolved result tempId (text payload) w)
      | Throw w err => Some (handlePrompt_rejected tempId w)
      end
  end.

End Main.

End Main.

(** ** Sample registries, events and responses *)

Module Samples.
Import JS Api Main.

(** A payload whose resolution is [0x0]: two numbers, neither positive. *)
Definition zero_resolution : Payload :=
  {| text := lit "hello"; resolution := [0%float; 0%float];
     fps := 30%float; captionText := lit "hello"; captionsEnabled := true;
     realtime := false; hdAudio := false; textTemp := 0.7%float;
     waveformTemp := 0.7%float; outputDir := []; jobPrefix := [];
     dryRun := true; renderVideo := false; outputPath := None |}.

(** A response with a failure status that streams one event. *)
Definition failing_stream_response : Response :=
  {| ok := false;
     content_type := Some (lit "text/event-stream; charset=utf-8");
     body := Some {| chunks := [[x64; x61; x74; x61; x3a; x20; x31; x0a];
                                [x0a]];
                     ending := None |};
     json_body := None |}.

(** A clock that advances by one millisecond at each reading. *)
Definition clock0 (n : nat) : Z := 1700000000000 + Z.of_nat n.

(** The plan of an audio-only run. *)
Definition audio_plan : SynthesisPlan :=
  {| prompt_length := 5%float; modalities := [lit "audio"]; render_video := false;
     dry_run := false; video_overrides := None; routing_priorities := None |}.

(** A record for the job [j1] with the given status and progress; it has an
    audio artifact when it is [completed]. *)
Definition job_j1 (s : Status) (p : number) : JobState :=
  {| id := lit "j1"; status := s; plan := audio_plan;
     artifacts := if decide (s = completed)
                  then [(lit "audio", lit "/a.wav")] else [];
     progress := p; createdAt := 1699999999000; updatedAt := 1699999999500;
     prompt := lit "hello" |}.

(** The registry that holds one record. *)
Definition registry_of (job : JobState) : World :=
  {| jobs := {[ id job := job ]}; ticks := 0 |}.

(** A stream event, as [JSON.parse] returns it. *)
Definition event (job_id_ : string) (status_ : option string)
    (progress_ : option number) : json :=
  JObj ([(lit "job_id", JStr (lit job_id_))]
        ++ match status_ with
           | Some s => [(lit "status", JStr (lit s))]
           | None => []
           end
        ++ match progress_ with
           | Some p => [(lit "progress", JNum p)]
           | None => []
           end).

(** The answer to a dry run. *)
Definition planned_response : SynthesisResponse :=
  {| job_id := lit "j1"; response_status := planned;
     response_plan := audio_plan; response_artifacts := [] |}.

(** The registry when the page loads. *)
Definition empty_registry : World := {| jobs := ∅; ticks := 0 |}.

(** A parser that knows one payload: [go] is an event for [j1] that carries
    the status [running] and the progress 40. *)
Definition parse_go (payload : jsstring) : option json :=
  if jsstring_eqb payload (lit "go")
  then Some (event "j1" (Some "running") (Some 40%float))
  else None.

(** A stream that delivers [data: go], a blank line, and is then aborted. *)
Definition aborted_response : Response :=
  {| ok := true;
     content_type := Some (lit "text/event-stream");
     body := Some {| chunks := [[x64; x61; x74; x61; x3a; x20; x67; x6f; x0a];
                                [x0a; x64; x61]];
                     ending := Some AbortError |};
     json_body := None |}.

(** A form as the page has it by default, with the prompt [hello] and a dry
    run. *)
Definition hello_form : Form :=
  {| textPrompt := lit " hello ";
     videoResolution := lit "1920x1080";
     videoFps := lit "30";
     captionText_value := [];
     enableCaptions := true;
     enableRealtime := false;
     enableHdAudio := false;
     textTemp_value := lit "0.7";
     waveformTemp_value := lit "0.7";
     outputDir_value := [];
     jobPrefix_value := [];
     dryRunToggle := true;
     renderVideoToggle := false |}.

(** [Number] on the strings of [hello_form] and on [40]. *)
Definition Number0 (s : jsstring) : number :=
  if jsstring_eqb s (lit "1920") then 1920%float
  else if jsstring_eqb s (lit "1080") then 1080%float
  else if jsstring_eqb s (lit "30") then 30%float
  else if jsstring_eqb s (lit "0.7") then 0.7%float
  else if jsstring_eqb s (lit "40") then 40%float
  else nan.

(** [String] on the number 40, the one number the samples print. *)
Definition Number_toString0 (x : number) : jsstring :=
  if decide (x = 40%float) then lit "40" else lit "NaN".

(** The buffered answer of scenario A. *)
Definition planned_document : json :=
  JObj [(lit "job_id", JStr (lit "j1"));
        (lit "status", JStr (lit "planned"));
        (lit "plan",
         JObj [(lit "prompt_length", JNum 5%float);
               (lit "modalities", JArr [JStr (lit "audio")]);
               (lit "render_video", JBool false);
               (lit "dry_run", JBool true)]);
        (lit "artifacts", JObj [])].

(** A service that answers every request with [planned_document]. *)
Definition planned_fetch (payload : json) (signal_ : option AbortSignal)
  : Fetched :=
  Responded {| ok := true; content_type := Some (lit "application/json");
               body := None; json_body := Some planned_document |}.

End Samples.

(** ** Registry invariants *)

Module Invariants.
Import JS Api Main.

(** Every record is stored under its own [id], as [upsertJob] stores it. *)
Definition keyed (w : World) : Prop :=
  forall k job, jobs w !! k = Some job -> id job = k.

(** The fields of a record that no update assigns. *)
Definition same_core (job job' : JobState) : Prop :=
  id job' = id job /\ plan job' = plan job /\ artifacts job' = artifacts job
  /\ createdAt job' = createdAt job /\ prompt job' = prompt job.

(** A clock that never runs backwards. *)
Definition monotone (clock : nat -> Z) : Prop :=
  forall m n, (m <= n)%nat -> (clock m <= clock n)%Z.

(** The timestamps of every record are in order, and none is later than a
    reading of the clock that has been made ([ticks w] counts the readings
    made so far). *)
Definition stamped (clock : nat -> Z) (w : World) : Prop :=
  forall k job, jobs w !! k = Some job ->
    (createdAt job <= updatedAt job)%Z
    /\ exists t, (t < ticks w)%nat /\ (updatedAt job <= clock t)%Z.

(** Every record of [w] is still there in [w'], with the same core. *)
Definition core_kept (w w' : World) : Prop :=
  forall k job, jobs w !! k = Some job ->
    exists job', jobs w' !! k = Some job' /\ same_core job job'.

(** What the callback of [handlePrompt] keeps of the registry [w0] a stream
    started from. *)
Definition kept (w0 w : World) : Prop :=
  keyed w /\ dom (jobs w) = dom (jobs w0) /\ core_kept w0 w.

(** The service answers the request with a document of the declared type:
    whenever the answer has a success status, what [createSynthesisJob]
    resolves to when it reads the answer as a whole (its body, or [{}] when
    the body is not JSON) is falsy or a [SynthesisResponse]. *)
Definition typed_answers (fetch : json -> option AbortSignal -> Fetched)
    (payload : json) : Prop :=
  forall response,
    fetch payload None = Responded response -> ok response = true ->
    truthy (default (JObj []) (json_body response)) = true ->
    is_Some (as_SynthesisResponse (default (JObj []) (json_body response))).

(** The placeholder id of a submission made when the clock is at tick [t]:
    the template literal of [handlePrompt]. *)
Definition placeholder (clock : nat -> Z) (t : nat) : jsstring :=
  lit "job-" ++ decimal (clock t).

(** The state a sink leaves, whether it returns or throws. *)
Definition after {W : Type} (onEvent : option (Sink (W := W)))
    (w : W) (data : json) : W :=
  state_of (call onEvent data w).

End Invariants.

(** ** The rest of [frontend/src/api.ts] *)

Module ApiRest.
Import JS Api Main.

(** A response to a [GET], with the status text [fetchJson] reads. *)
Record StatusResponse : Type := {
  response : Response;
  statusText : jsstring
}.

Inductive FetchedStatus : Type :=
| RespondedWith (r : StatusResponse)
| RejectedWith (e : exn).

(** The object [pollJob] returns, as it is at run time: the fields copied
    from the body are parsed values, [None] for [undefined]. *)
Record PolledJob : Type := {
  polled_id : option json;
  polled_status : option json;
  polled_plan : option json;
  polled_artifacts : option json;
  polled_progress : number;
  polled_createdAt : Z;
  polled_updatedAt : Z;
  polled_prompt : jsstring
}.

(** What [fetchJson] rejects with: something thrown, or the [SyntaxError]
    of [response.json()] on a body that is not JSON. *)
Inductive rejection : Type :=
| Thrown (e : exn)
| SyntaxError.

Section ApiRest.

(** [fetch(url)]: the service and the network for the [GET] endpoints. *)
Variable fetch_url : jsstring -> FetchedStatus.

Variable clock : nat -> Z.

Definition fetchJson (url : jsstring) : rejection + json :=
  match fetch_url url with
  | RejectedWith e => inl (Thrown e)
  | RespondedWith r =>
      if negb (ok (response r)) then
        let payload := default (JObj []) (json_body (response r)) in
        match payload with
        | JNull => inl (Thrown TypeError)
        | _ =>
            match prop "detail" payload with
            | Some detail =>
                if truthy detail then inl (Thrown (Error detail))
                else inl (Thrown (Error (JStr (statusText r))))
            | None => inl (Thrown (Error (JStr (statusText r))))
            end
        end
      else
        match json_body (response r) with
        | Some data => inr data
        | None => inl SyntaxError
        end
  end.

Definition getHealth : rejection + json := fetchJson (lit "/api/health").

Definition getCapabilities : rejection + json :=
  fetchJson (lit "/api/capabilities").

(** [pollJob]. Reading [data.job_id] of [null] throws inside the [try]
    block, so a [null] body gives [null] like any failure (the warning on
    the console is left out). Any other body gives a job: the cast of
    [fetchJson<SynthesisResponse>] checks nothing, so the fields are
    whatever the body holds under their names. *)
Definition pollJob (jobId : jsstring) (w : World)
  : option PolledJob * World :=
  match fetchJson (lit "/api/bark/jobs/" ++ jobId) with
  | inr JNull => (None, w)
  | inr data =>
      let '(created, w) := Date_now clock w in
      let '(updated, w) := Date_now clock w in
      (Some {| polled_id := prop "job_id" data;
               polled_status := prop "status" data;
               polled_plan := prop "plan" data;
               polled_artifacts := prop "artifacts" data;
               polled_progress :=
                 if decide (prop "status" data = Some completed)
                 then 100%float else 50%float;
               polled_createdAt := created;
               polled_updatedAt := updated;
               polled_prompt := [] |}, w)
  | inl _ => (None, w)
  end.

End ApiRest.

End ApiRest.

(** ** More samples *)

Module MoreSamples.
Import JS Api Main Samples.

(** A form whose prompt is two spaces. *)
Definition blank_form : Form :=
  {| textPrompt := lit "  ";
     videoResolution := lit "1920x1080";
     videoFps := lit "30";
     captionText_value := [];
     enableCaptions := true;
     enableRealtime := false;
     enableHdAudio := false;
     textTemp_value := lit "0.7";
     waveformTemp_value := lit "0.7";
     outputDir_value := [];
     jobPrefix_value := [];
     dryRunToggle := true;
     renderVideoToggle := false |}.

(** A payload whose frame rate did not parse. *)
Definition nan_fps_payload : Payload :=
  {| text := lit "hello"; resolution := [1920%float; 1080%float];
     fps := nan; captionText := lit "hello"; captionsEnabled := true;
     realtime := false; hdAudio := false; textTemp := 0.7%float;
     waveformTemp := 0.7%float; outputDir := []; jobPrefix := [];
     dryRun := true; renderVideo := false; outputPath := None |}.

(** A sink that records strings and throws on every other value. *)
Definition picky_sink : Sink (W := list json) :=
  fun data seen =>
    match data with
    | JStr _ => Normal (seen ++ [data]) tt
    | _ => Throw seen (Error (JStr (lit "not a string")))
    end.

(** The two reads of [failing_stream_response]: [data: 1], a line break,
    and then the second line break. *)
Definition two_reads : list (list byte) :=
  [[x64; x61; x74; x61; x3a; x20; x31; x0a]; [x0a]].

(** A service that cannot be reached. *)
Definition unreachable (payload : json) (signal_ : option AbortSignal)
  : Fetched :=
  Rejected NetworkFailure.

(** A service that answers every request with [failing_stream_response]. *)
Definition streaming_fetch (payload : json) (signal_ : option AbortSignal)
  : Fetched :=
  Responded failing_stream_response.

(** A parser that rejects every payload. *)
Definition parse_nothing (payload : jsstring) : option json := None.

(** A record for a second job, [j2]. *)
Definition job_j2 : JobState :=
  {| id := lit "j2"; status := completed; plan := audio_plan;
     artifacts := [(lit "audio", lit "/b.wav")];
     progress := 100%float; createdAt := 1699999998000;
     updatedAt := 1699999998500; prompt := lit "earlier" |}.

(** A registry that holds [j1], queued, and [j2]. *)
Definition two_jobs : World :=
  {| jobs := {[ lit "j1" := job_j1 queued 10%float; lit "j2" := job_j2 ]};
     ticks := 0 |}.

(** The reads of [aborted_response]: [data: go] with its blank line, and
    the beginning of a message that is never completed. *)
Definition go_reads : list (list byte) :=
  [[x64; x61; x74; x61; x3a; x20; x67; x6f; x0a]; [x0a; x64; x61]].

(** A service that answers every request with [aborted_response]. *)
Definition aborting_fetch (payload : json) (signal_ : option AbortSignal)
  : Fetched :=
  Responded aborted_response.

(** An answer to a poll of [j1]. *)
Definition polled_fetch (url : jsstring) : ApiRest.FetchedStatus :=
  ApiRest.RespondedWith
    {| ApiRest.response :=
         {| ok := true; content_type := Some (lit "application/json");
            body := None; json_body := Some planned_document |};
       ApiRest.statusText := lit "OK" |}.

End MoreSamples.

(** * Properties *)

Import JS Api.
Import Samples.

(** ** Strings *)

(** A prefix test that succeeds on [s] succeeds on every extension of [s]. *)
Lemma strip_prefix_app p : forall s r t,
  strip_prefix p s = Some r -> strip_prefix p (s ++ t) = Some (r ++ t).
Proof.
  induction p as [|x p IH]; intros [|y s] r t; simpl; intros H;
    try discriminate; try (by injection H as <-).
  destruct (N.eqb x y); [auto | discriminate].
Qed.

Lemma strip_prefix_length p : forall s r,
  strip_prefix p s = Some r -> length s = (length p + length r)%nat.
Proof.
  induction p as [|x p IH]; intros [|y s] r; simpl; intros H;
    try discriminate; try (by injection H as <-).
  destruct (N.eqb x y); [|discriminate]. apply IH in H. lia.
Qed.

(** A prefix test that fails on a string at least as long as the prefix
    fails on every extension of it. *)
Lemma strip_prefix_None_app p : forall s t,
  strip_prefix p s = None -> (length p <= length s)%nat ->
  strip_prefix p (s ++ t) = None.
Proof.
  induction p as [|x p IH]; intros [|y s] t; simpl; intros H Hl;
    try discriminate; try lia.
  destruct (N.eqb x y); [|done]. apply IH; [done | lia].
Qed.

Lemma break_at_length p : forall s a b,
  break_at p s = Some (a, b) ->
  length s = (length a + length p + length b)%nat.
Proof.
  induction s as [|c s IH]; intros a b; simpl.
  - destruct (strip_prefix p []) as [r|] eqn:E; [|discriminate].
    intros H; injection H as <- <-. apply strip_prefix_length in E. simpl in *. lia.
  - destruct (strip_prefix p (c :: s)) as [r|] eqn:E.
    + intros H; injection H as <- <-. apply strip_prefix_length in E. simpl in *. lia.
    + destruct (break_at p s) as [[a' b']|]; [|discriminate].
      intros H; injection H as <- <-. specialize (IH _ _ eq_refl). simpl. lia.
Qed.

(** The leftmost occurrence of [p] in [s] is still the leftmost one when
    text is appended to [s]. *)
Lemma break_at_app p : forall s a b t,
  break_at p s = Some (a, b) -> break_at p (s ++ t) = Some (a, b ++ t).
Proof.
  induction s as [|c s IH]; intros a b t; simpl.
  - destruct (strip_prefix p []) as [r|] eqn:E; [|discriminate].
    intros H; injection H as <- <-.
    destruct p; [|discriminate]. simpl in E. injection E as <-.
    destruct t; reflexivity.
  - destruct (strip_prefix p (c :: s)) as [r|] eqn:E.
    + intros H; injection H as <- <-.
      change (c :: s ++ t) with ((c :: s) ++ t).
      by rewrite (strip_prefix_app _ _ _ t E).
    + destruct (break_at p s) as [[a' b']|] eqn:B; [|discriminate].
      intros H; injection H as <- <-.
      change (c :: s ++ t) with ((c :: s) ++ t).
      rewrite strip_prefix_None_app; [| done |].
      * by rewrite (IH _ _ t eq_refl).
      * apply break_at_length in B. simpl. lia.
Qed.

(** The two defining equations of [split] for a non-empty separator. *)
Lemma split_found c sep s a b :
  break_at (c :: sep) s = Some (a, b) ->
  split (c :: sep) s = a :: split (c :: sep) b.
Proof.
  intros E. simp split.
  destruct (inspect (break_at (c :: sep) s)) as [[[a' b']|] E']; simp split.
  - rewrite E in E'. by injection E' as <- <-.
  - congruence.
Qed.

Lemma split_not_found c sep s :
  break_at (c :: sep) s = None -> split (c :: sep) s = [s].
Proof.
  intros E. simp split.
  destruct (inspect (break_at (c :: sep) s)) as [[[a' b']|] E']; simp split.
  - congruence.
  - done.
Qed.

Lemma split_nonempty c sep s : split (c :: sep) s <> [].
Proof.
  destruct (break_at (c :: sep) s) as [[a b]|] eqn:E.
  - by rewrite (split_found _ _ _ _ _ E).
  - by rewrite (split_not_found _ _ _ E).
Qed.

(** Splitting [s ++ t]: the pieces that [s] completes, followed by the
    pieces of the last, unfinished piece of [s] extended with [t]. This is
    what carrying the remainder of a buffer to the next read relies on. *)
Lemma split_app c sep t : forall n s, (length s <= n)%nat ->
  split (c :: sep) (s ++ t) =
  removelast (split (c :: sep) s)
    ++ split (c :: sep) (List.last (split (c :: sep) s) [] ++ t).
Proof.
  induction n as [|n IH]; intros s Hn.
  - destruct s; [|simpl in Hn; lia].
    rewrite (split_not_found c sep []); [done|].
    simpl. by destruct (strip_prefix sep []).
  - destruct (break_at (c :: sep) s) as [[a b]|] eqn:E.
    + rewrite (split_found _ _ _ _ _ E).
      rewrite (split_found _ _ _ _ _ (break_at_app _ _ _ _ t E)).
      pose proof (break_at_length _ _ _ _ E) as Hl. simpl in Hl.
      rewrite (IH b) by lia.
      pose proof (split_nonempty c sep b) as Hne.
      destruct (split (c :: sep) b) as [|m ms] eqn:Eb; [done|].
      reflexivity.
    + by rewrite (split_not_found _ _ _ E).
Qed.

(** ** More on strings *)

Lemma strip_prefix_eq p : forall s r,
  strip_prefix p s = Some r -> s = p ++ r.
Proof.
  induction p as [|x p IH]; intros [|y s] r; simpl; intros H;
    try discriminate; try (by injection H as <-).
  destruct (N.eqb_spec x y) as [->|]; [|discriminate].
  by rewrite (IH _ _ H).
Qed.

Lemma break_at_eq p : forall s a b,
  break_at p s = Some (a, b) -> s = a ++ p ++ b.
Proof.
  induction s as [|c s IH]; intros a b; simpl.
  - destruct (strip_prefix p []) as [r|] eqn:E; [|discriminate].
    intros H; injection H as <- <-. simpl. by apply strip_prefix_eq.
  - destruct (strip_prefix p (c :: s)) as [r|] eqn:E.
    + intros H; injection H as <- <-. simpl. by apply strip_prefix_eq.
    + destruct (break_at p s) as [[a' b']|]; [|discriminate].
      intros H; injection H as <- <-. simpl. f_equal. by apply IH.
Qed.

(** There is no occurrence of the pattern before its leftmost occurrence. *)
Lemma break_at_before c p : forall s a b,
  break_at (c :: p) s = Some (a, b) -> break_at (c :: p) a = None.
Proof.
  induction s as [|d s IH]; intros a b.
  - simpl. discriminate.
  - cbn [break_at].
    destruct (strip_prefix (c :: p) (d :: s)) as [r|] eqn:E.
    + intros H; injection H as <- <-. done.
    + destruct (break_at (c :: p) s) as [[a' b']|] eqn:B; [|discriminate].
      intros H; injection H as <- <-. cbn [break_at].
      rewrite (IH _ _ eq_refl).
      destruct (strip_prefix (c :: p) (d :: a')) as [r'|] eqn:E'; [|done].
      apply break_at_eq in B. rewrite B in E.
      change (d :: a' ++ (c :: p) ++ b') with ((d :: a') ++ (c :: p) ++ b') in E.
      by rewrite (strip_prefix_app _ _ _ _ E') in E.
Qed.

Lemma join_cons sep piece pieces :
  pieces <> [] ->
  JSMore.join sep (piece :: pieces) = piece ++ sep ++ JSMore.join sep pieces.
Proof. by destruct pieces. Qed.

(** Splitting and joining with the same separator gives the string back,
    and no piece contains the separator. *)
Lemma split_join c sep : forall n s, (length s <= n)%nat ->
  JSMore.join (c :: sep) (split (c :: sep) s) = s
  /\ Forall (fun piece => break_at (c :: sep) piece = None)
       (split (c :: sep) s).
Proof.
  induction n as [|n IH]; intros s Hn;
    destruct (break_at (c :: sep) s) as [[a b]|] eqn:E.
  - apply break_at_length in E. simpl in E. lia.
  - rewrite (split_not_found _ _ _ E). by repeat constructor.
  - rewrite (split_found _ _ _ _ _ E).
    pose proof (break_at_length _ _ _ _ E) as Hl. simpl in Hl.
    destruct (IH b ltac:(lia)) as [Hjoin Hall].
    rewrite join_cons by apply split_nonempty. rewrite Hjoin. split.
    + symmetry. by apply break_at_eq.
    + constructor; [by eapply break_at_before | done].
  - rewrite (split_not_found _ _ _ E). by repeat constructor.
Qed.

Lemma trimStart_idempotent s : trimStart (trimStart s) = trimStart s.
Proof.
  induction s as [|c s IH]; [done|]. simpl.
  destruct (is_space c) eqn:E; [done|]. simpl. by rewrite E.
Qed.

Lemma trimStart_app x y :
  trimStart (x ++ y) =
  match trimStart x with [] => trimStart y | _ => trimStart x ++ y end.
Proof.
  induction x as [|c x IH]; [done|]. simpl.
  by destruct (is_space c).
Qed.

Lemma trimEnd_cons c s :
  trimEnd (c :: s) =
  match trimEnd s with
  | [] => if is_space c then [] else [c]
  | _ => c :: trimEnd s
  end.
Proof.
  unfold trimEnd. simpl rev. rewrite trimStart_app.
  destruct (trimStart (rev s)) as [|d t] eqn:E.
  - simpl. by destruct (is_space c).
  - rewrite rev_app_distr. simpl.
    destruct (rev t ++ [d]) eqn:E2; [|done].
    by apply app_eq_nil in E2 as [_ ?].
Qed.

Lemma trimEnd_app_nonspace x c s :
  is_space c = false -> trimEnd (x ++ c :: s) = x ++ c :: trimEnd s.
Proof.
  intros Hc. induction x as [|d x IH].
  - simpl. rewrite trimEnd_cons, Hc. by destruct (trimEnd s).
  - simpl. rewrite trimEnd_cons, IH. by destruct x.
Qed.

Lemma trimEnd_idempotent s : trimEnd (trimEnd s) = trimEnd s.
Proof. unfold trimEnd. by rewrite rev_involutive, trimStart_idempotent. Qed.

Lemma trimStart_trimEnd s : trimStart (trimEnd s) = trimEnd (trimStart s).
Proof.
  induction s as [|c s IH]; [done|].
  rewrite trimEnd_cons. simpl trimStart at 2.
  destruct (is_space c) eqn:Hc.
  - rewrite <- IH. destruct (trimEnd s) as [|d t] eqn:E; [done|].
    simpl. by rewrite Hc.
  - rewrite trimEnd_cons. destruct (trimEnd s); simpl; by rewrite Hc.
Qed.

Lemma trim_trimEnd s : trim (trimEnd s) = trim s.
Proof.
  unfold trim. by rewrite trimStart_trimEnd, trimEnd_idempotent.
Qed.

(** A line break does not occur in text without one. *)
Lemma break_at_LF_absent s : ~ In LF s -> break_at [LF] s = None.
Proof.
  induction s as [|c s IH]; intros Hs; [done|]. cbn [break_at strip_prefix].
  destruct (N.eqb_spec LF c) as [<-|Hne]; [exfalso; apply Hs; by left|].
  rewrite IH; [done|]. intros H. apply Hs. by right.
Qed.

Lemma break_at_first_LF s rest :
  ~ In LF s -> break_at [LF] (s ++ LF :: rest) = Some (s, rest).
Proof.
  induction s as [|c s IH]; intros Hs.
  { cbn [app break_at strip_prefix]. by rewrite N.eqb_refl. }
  cbn [app break_at strip_prefix].
  destruct (N.eqb_spec LF c) as [<-|Hne]; [exfalso; apply Hs; by left|].
  rewrite IH; [done|]. intros H. apply Hs. by right.
Qed.

Lemma break_at_blank_line s rest :
  ~ In LF s -> break_at [LF; LF] (s ++ LF :: LF :: rest) = Some (s, rest).
Proof.
  induction s as [|c s IH]; intros Hs.
  { cbn [app break_at strip_prefix]. by rewrite N.eqb_refl. }
  cbn [app break_at strip_prefix].
  destruct (N.eqb_spec LF c) as [<-|Hne]; [exfalso; apply Hs; by left|].
  rewrite IH; [done|]. intros H. apply Hs. by right.
Qed.

(** The blank line that follows a message is the first one of the text when
    the message has none and does not end in a line break. *)
Lemma break_at_completed message rest :
  break_at [LF; LF] (message ++ [LF]) = None ->
  break_at [LF; LF] (message ++ LF :: LF :: rest) = Some (message, rest).
Proof.
  induction message as [|c m IH]; intros H.
  { cbn [app break_at strip_prefix]. by rewrite N.eqb_refl. }
  cbn [app break_at] in H |- *.
  destruct (strip_prefix [LF; LF] (c :: m ++ [LF])) as [r|] eqn:E1;
    [discriminate|].
  destruct (break_at [LF; LF] (m ++ [LF])) as [[a b]|] eqn:E2;
    [discriminate|].
  change (c :: m ++ LF :: LF :: rest) with (c :: m ++ [LF] ++ LF :: rest).
  rewrite app_assoc.
  change (c :: (m ++ [LF]) ++ LF :: rest)
    with ((c :: m ++ [LF]) ++ LF :: rest).
  rewrite (strip_prefix_None_app _ _ _ E1).
  - by rewrite IH.
  - simpl. rewrite length_app. simpl. lia.
Qed.

(** ** The event-stream decoder *)

Section Decoding.
Context {W : Type}.
Variable JSON_parse : jsstring -> option json.

(** The loop over two lists of messages is the loop over the first followed,
    unless it throws, by the loop over the second. *)
Lemma parseSseChunk_loop_app (onEvent : option (@Sink W)) ms1 ms2 w :
  parseSseChunk_loop JSON_parse onEvent (ms1 ++ ms2) w =
  match parseSseChunk_loop JSON_parse onEvent ms1 w with
  | Normal w' _ => parseSseChunk_loop JSON_parse onEvent ms2 w'
  | Throw w' e => Throw w' e
  end.
Proof.
  revert w. induction ms1 as [|m ms1 IH]; intros w; simpl; [done|].
  destruct (parseSseChunk_message JSON_parse onEvent m w); [apply IH | done].
Qed.

Lemma last_app_nonempty {A : Type} (l1 l2 : list A) d :
  l2 <> [] -> List.last (l1 ++ l2) d = List.last l2 d.
Proof.
  intros Hne. induction l1 as [|x l1 IH]; [done|].
  simpl. rewrite IH. destruct (l1 ++ l2) eqn:E; [|done].
  apply app_eq_nil in E as [_ ->]. done.
Qed.

(** Feeding a buffer and then more text: the messages completed by the first
    part are dispatched first, and the rest is parsed from the remainder. *)
Lemma parseSseChunk_app (onEvent : option (@Sink W)) buffer text w :
  parseSseChunk JSON_parse (buffer ++ text) onEvent w =
  match parseSseChunk JSON_parse buffer onEvent w with
  | Normal w' remainder => parseSseChunk JSON_parse (remainder ++ text) onEvent w'
  | Throw w' e => Throw w' e
  end.
Proof.
  unfold parseSseChunk.
  rewrite (split_app LF [LF] text (length buffer) buffer) by lia.
  pose proof (split_nonempty LF [LF]
                (List.last (split [LF; LF] buffer) [] ++ text)) as Hne.
  rewrite removelast_app, last_app_nonempty by done.
  rewrite parseSseChunk_loop_app.
  by destruct (parseSseChunk_loop JSON_parse onEvent
                 (removelast (split [LF; LF] buffer)) w).
Qed.

(** The streaming decoder on two chunks in turn produces the text it
    produces on their concatenation, and ends in the same state. *)
Lemma decode_app chunk1 chunk2 d :
  decode d (chunk1 ++ chunk2) =
  let '(d1, text1) := decode d chunk1 in
  let '(d2, text2) := decode d1 chunk2 in
  (d2, text1 ++ text2).
Proof.
  revert d. induction chunk1 as [|b chunk1 IH]; intros d; simpl.
  - by destruct (decode d chunk2).
  - destruct (decode_byte d b) as [d1 out1]. rewrite IH.
    destruct (decode d1 chunk1) as [d2 out2].
    destruct (decode d2 chunk2) as [d3 out3].
    by rewrite app_assoc.
Qed.

(** Two consecutive reads can be merged into one. *)
Lemma read_loop_merge (opts : @Options W) d buffer chunk1 chunk2 reads ending w :
  read_loop JSON_parse opts d buffer (chunk1 :: chunk2 :: reads) ending w =
  read_loop JSON_parse opts d buffer ((chunk1 ++ chunk2) :: reads) ending w.
Proof.
  simpl. rewrite decode_app.
  destruct (decode d chunk1) as [d1 text1].
  destruct (decode d1 chunk2) as [d2 text2].
  rewrite app_assoc.
  rewrite (parseSseChunk_app (onEvent opts) (buffer ++ text1) text2 w).
  by destruct (parseSseChunk JSON_parse (buffer ++ text1) (onEvent opts) w).
Qed.

Lemma read_loop_concat (opts : @Options W) ending reads : forall d buffer chunk w,
  read_loop JSON_parse opts d buffer (chunk :: reads) ending w =
  read_loop JSON_parse opts d buffer [chunk ++ concat reads] ending w.
Proof.
  induction reads as [|chunk2 reads IH]; intros d buffer chunk w.
  - by rewrite app_nil_r.
  - rewrite read_loop_merge, IH. simpl concat. by rewrite app_assoc.
Qed.

(** A stream read in any number of chunks is decoded as if it had come in
    one chunk. *)
Lemma read_loop_one_chunk (opts : @Options W) ending reads w :
  read_loop JSON_parse opts new_TextDecoder [] reads ending w =
  read_loop JSON_parse opts new_TextDecoder [] [concat reads] ending w.
Proof.
  destruct reads as [|chunk reads].
  - simpl. unfold parseSseChunk.
    rewrite (split_not_found LF [LF] []) by done. done.
  - apply read_loop_concat.
Qed.

End Decoding.

(** C2. Chunk-boundary invariance: however the bytes of the body are cut
    into reads, the decoding loop hands the sink the same payloads, in the
    same order, as when the whole body arrives in one read. This holds for
    every byte sequence, and so for those that encode well-formed event
    messages. *)
Theorem chunk_boundary_invariance JSON_parse (reads : list (list byte)) :
  emitted JSON_parse reads = emitted JSON_parse [concat reads].
Proof. unfold emitted. by rewrite read_loop_one_chunk. Qed.

(** The payloads of a stream are those [parseSseChunk] dispatches from the
    text of the whole body, as the decoder reads it. *)
Lemma emitted_whole_text JSON_parse (reads : list (list byte)) :
  emitted JSON_parse reads =
  state_of (parseSseChunk JSON_parse
              (snd (decode new_TextDecoder (concat reads))) (Some record) []).
Proof.
  unfold emitted. rewrite read_loop_one_chunk. cbn [read_loop].
  destruct (decode new_TextDecoder (concat reads)) as [d' txt].
  cbn [snd app onEvent].
  by destruct (parseSseChunk JSON_parse txt (Some record) []).
Qed.

(** ** Numbers *)

(** Comparing binary64 numbers the other way round gives the opposite
    answer ([None] when one of them is [NaN]). *)
Lemma SFcompare_antisym x y :
  SFcompare y x = option_map CompOpp (SFcompare x y).
Proof.
  assert (Hm : forall m1 m2,
    Pos.compare_cont Eq m2 m1 = CompOpp (Pos.compare_cont Eq m1 m2)).
  { intros m1 m2. symmetry. apply (Pos.compare_cont_antisym m1 m2 Eq). }
  destruct x as [[]|[]| |[] m1 e1], y as [[]|[]| |[] m2 e2]; simpl; try done;
    rewrite (Z.compare_antisym e1 e2), (Hm m1 m2);
    destruct (e1 ?= e2)%Z; simpl; try done.
Qed.

Lemma leb_not_ltb (x y : number) :
  PrimFloat.leb x y = true -> PrimFloat.ltb y x = false.
Proof.
  rewrite leb_spec, ltb_spec. unfold SFleb, SFltb.
  rewrite (SFcompare_antisym (Prim2SF x) (Prim2SF y)).
  by destruct (SFcompare (Prim2SF x) (Prim2SF y)) as [[]|].
Qed.

Lemma ltb_not_leb (x y : number) :
  PrimFloat.ltb x y = true -> PrimFloat.leb y x = false.
Proof.
  rewrite leb_spec, ltb_spec. unfold SFleb, SFltb.
  rewrite (SFcompare_antisym (Prim2SF x) (Prim2SF y)).
  by destruct (SFcompare (Prim2SF x) (Prim2SF y)) as [[]|].
Qed.

Import Main.
Import Invariants.
Import MoreSamples.

#[local] Set Warnings "-clear-no-such-hyp".

(** ** The request validator *)

(** C8. A payload with a non-empty prompt, both temperatures in [0, 1.5]
    and a positive frame rate passes validation: [validate] returns no
    error. *)
Theorem validate_accepts (payload : Payload) :
  text payload <> [] ->
  PrimFloat.leb 0 (textTemp payload) = true ->
  PrimFloat.leb (textTemp payload) 1.5 = true ->
  PrimFloat.leb 0 (waveformTemp payload) = true ->
  PrimFloat.leb (waveformTemp payload) 1.5 = true ->
  PrimFloat.ltb 0 (fps payload) = true ->
  validate payload = [].
Proof.
  intros Htext Ht0 Ht1 Hw0 Hw1 Hfps. unfold validate.
  rewrite (leb_not_ltb _ _ Ht0), (leb_not_ltb _ _ Ht1).
  rewrite (leb_not_ltb _ _ Hw0), (leb_not_ltb _ _ Hw1).
  rewrite (ltb_not_leb _ _ Hfps).
  by destruct (text payload).
Qed.

Lemma validate_accepts_witness :
  validate
    {| text := lit "hello"; resolution := [1920%float; 1080%float];
       fps := 30%float; captionText := lit "hello"; captionsEnabled := true;
       realtime := false; hdAudio := false; textTemp := 0.7%float;
       waveformTemp := 1.5%float; outputDir := []; jobPrefix := [];
       dryRun := true; renderVideo := false; outputPath := None |} = [].
Proof. apply validate_accepts; reflexivity || discriminate. Defined.

(** C9 fails as stated: this resolution does not parse into two positive
    integers, and [validate] returns no error for it. *)
Lemma validate_accepts_zero_resolution :
  two_positive_integers (resolution zero_resolution) = false
  /\ validate zero_resolution = [].
Proof. split; reflexivity. Qed.

(** C9, amended. [validate] reports an error exactly when the prompt is
    empty, a temperature is below 0 or above 1.5, or the frame rate is not
    above 0 (a [NaN] frame rate passes); the resolution is not examined. *)
Theorem validate_rejects_iff (payload : Payload) :
  validate payload <> [] <->
  (text payload = []
   \/ PrimFloat.ltb (textTemp payload) 0 = true
   \/ PrimFloat.ltb 1.5 (textTemp payload) = true
   \/ PrimFloat.ltb (waveformTemp payload) 0 = true
   \/ PrimFloat.ltb 1.5 (waveformTemp payload) = true
   \/ PrimFloat.leb (fps payload) 0 = true).
Proof.
  unfold validate.
  destruct (text payload) as [|c t];
    destruct (PrimFloat.ltb (textTemp payload) 0);
    destruct (PrimFloat.ltb 1.5 (textTemp payload));
    destruct (PrimFloat.ltb (waveformTemp payload) 0);
    destruct (PrimFloat.ltb 1.5 (waveformTemp payload));
    destruct (PrimFloat.leb (fps payload) 0); simpl;
    (split;
     [ intros H; try (exfalso; by apply H); tauto
     | intros H; try discriminate; intuition discriminate ]).
Qed.

(** ** What the sink sees *)

Section Sinks.
Context {W : Type}.
Variable JSON_parse : jsstring -> option json.

(** A property of the state that every call of the sink keeps is kept by the
    loops, whether they return or throw. *)
Lemma parseSseChunk_loop_preserves (P : W -> Prop) (onEvent : option (@Sink W)) :
  (forall data w, P w -> P (after onEvent w data)) ->
  forall messages w, P w ->
    P (state_of (parseSseChunk_loop JSON_parse onEvent messages w)).
Proof.
  intros Hsink. induction messages as [|m messages IH]; intros w Hw; [done|].
  simpl.
  assert (Hm : P (state_of (parseSseChunk_message JSON_parse onEvent m w))).
  { unfold parseSseChunk_message.
    destruct (List.find _ _) as [[|c line]|]; try done.
    destruct (JSON_parse _) as [data|]; [|by apply Hsink].
    pose proof (Hsink data w Hw) as H1. unfold after in H1.
    destruct (call onEvent data w) as [w' []|w' e]; [done|].
    by apply Hsink. }
  destruct (parseSseChunk_message JSON_parse onEvent m w) as [w' []|w' e];
    [by apply IH | done].
Qed.

Lemma read_loop_preserves (P : W -> Prop) (opts : @Options W) :
  (forall data w, P w -> P (after (onEvent opts) w data)) ->
  forall reads d buffer ending w, P w ->
    P (state_of (read_loop JSON_parse opts d buffer reads ending w)).
Proof.
  intros Hsink. induction reads as [|value reads IH];
    intros d buffer ending w Hw; simpl.
  - by destruct ending.
  - destruct (decode d value) as [d' txt]. unfold parseSseChunk.
    pose proof (parseSseChunk_loop_preserves P (onEvent opts) Hsink
                  (removelast (split [LF; LF] (buffer ++ txt))) w Hw) as H1.
    destruct (parseSseChunk_loop JSON_parse (onEvent opts) _ w)
      as [w' []|w' e]; [by apply IH | done].
Qed.

Lemma createSynthesisJob_preserves (P : W -> Prop) fetch payload
    (opts : @Options W) (w : W) :
  (forall data w, P w -> P (after (onEvent opts) w data)) ->
  P w -> P (state_of (createSynthesisJob JSON_parse fetch payload opts w)).
Proof.
  intros Hsink Hw. unfold createSynthesisJob.
  destruct (fetch payload (signal opts)) as [response|e]; [|done].
  assert (Hjson : P (state_of
    (let data := default (JObj []) (json_body response) in
     if negb (ok response)
     then match data with
          | JNull => Throw w TypeError
          | _ => match prop "detail" data with
                 | Some detail =>
                     if truthy detail then Throw w (Error detail)
                     else Throw w (Error (JStr (lit "Request failed")))
                 | None => Throw w (Error (JStr (lit "Request failed")))
                 end
          end
     else @Normal W (option json) w (Some data)))).
  { simpl. destruct (negb (ok response)); [|done].
    destruct (default (JObj []) (json_body response)); try done;
      destruct (prop "detail" _) as [detail|]; try done;
      by destruct (truthy detail). }
  destruct (includes _ _); [|exact Hjson].
  destruct (body response) as [stream|]; [|exact Hjson].
  pose proof (read_loop_preserves P opts Hsink (chunks stream) new_TextDecoder
                [] (ending stream) w Hw) as H1.
  by destruct (read_loop _ _ _ _ _ _ _) as [w' []|w' e].
Qed.

End Sinks.

Section Trace.
Context {W : Type}.
Variable JSON_parse : jsstring -> option json.

Lemma never_throws_retry_safe (onEvent : option (@Sink W)) :
  never_throws onEvent -> retry_safe onEvent.
Proof.
  intros Hsink. split; [intros text w; apply Hsink|].
  intros data w w' e Hthrow. destruct (Hsink data w) as [w'' Hreturn].
  congruence.
Qed.

(** What a message does to the state of a sink is what the sink does with
    the payloads the recording sink is handed for it: a throw of the sink
    on a parsed payload is caught, and the retry with the text changes
    nothing. *)
Lemma message_trace (onEvent : option (@Sink W)) message :
  retry_safe onEvent ->
  exists events,
    (forall seen, parseSseChunk_message JSON_parse (Some record) message seen
                  = Normal (seen ++ events) tt)
    /\ (forall w, parseSseChunk_message JSON_parse onEvent message w
                  = Normal (fold_left (after onEvent) events w) tt).
Proof.
  intros [Htext Hretry]. unfold parseSseChunk_message.
  destruct (List.find _ _) as [[|c line]|].
  - exists []. split; intros; by rewrite ?app_nil_r.
  - destruct (JSON_parse _) as [data|].
    + exists [data]. split; [done|]. intros w. simpl. unfold after.
      destruct (call onEvent data w) as [w' []|w' e] eqn:Hcall; [done|].
      by rewrite (Hretry data w w' e Hcall).
    + eexists [_]. split; [done|]. intros w. simpl. unfold after.
      by destruct (Htext (trim (replace (c :: line) (lit "data:") [])) w)
        as [w' ->].
  - exists []. split; intros; by rewrite ?app_nil_r.
Qed.

Lemma loop_trace (onEvent : option (@Sink W)) messages :
  retry_safe onEvent ->
  exists events,
    (forall seen, parseSseChunk_loop JSON_parse (Some record) messages seen
                  = Normal (seen ++ events) tt)
    /\ (forall w, parseSseChunk_loop JSON_parse onEvent messages w
                  = Normal (fold_left (after onEvent) events w) tt).
Proof.
  intros Hsink. induction messages as [|m messages (events2 & IH1 & IH2)].
  - exists []. split; intros; by rewrite ?app_nil_r.
  - destruct (message_trace onEvent m Hsink) as (events1 & H1 & H2).
    exists (events1 ++ events2). split.
    + intros seen. simpl. by rewrite H1, IH1, app_assoc.
    + intros w. simpl. by rewrite H2, IH2, fold_left_app.
Qed.

Lemma read_loop_trace (onEvent_ : option (@Sink W)) reads :
  retry_safe onEvent_ ->
  forall d buffer,
  exists events,
    (forall seen,
       read_loop JSON_parse {| signal := None; onEvent := Some record |}
         d buffer reads None seen = Normal (seen ++ events) tt)
    /\ (forall signal_ w,
          read_loop JSON_parse {| signal := signal_; onEvent := onEvent_ |}
            d buffer reads None w
          = Normal (fold_left (after onEvent_) events w) tt).
Proof.
  intros Hsink. induction reads as [|value reads IH]; intros d buffer.
  - exists []. split; intros; by rewrite ?app_nil_r.
  - simpl. destruct (decode d value) as [d' txt]. unfold parseSseChunk.
    destruct (loop_trace onEvent_
                (removelast (split [LF; LF] (buffer ++ txt))) Hsink)
      as (events1 & H1 & H2).
    destruct (IH d' (List.last (split [LF; LF] (buffer ++ txt)) []))
      as (events2 & IH1 & IH2).
    exists (events1 ++ events2). split.
    + intros seen. cbn [onEvent]. by rewrite H1, IH1, app_assoc.
    + intros signal_ w. cbn [onEvent]. by rewrite H2, IH2, fold_left_app.
Qed.

(** A rejected read ends the loop where the end of the stream would have:
    the sink has been handed the events of the chunks read so far, and
    nothing more. *)
Lemma read_loop_rejected (opts : @Options W) e reads : forall d buffer w,
  read_loop JSON_parse opts d buffer reads (Some e) w =
  match read_loop JSON_parse opts d buffer reads None w with
  | Normal w' _ => Throw w' e
  | Throw w' e' => Throw w' e'
  end.
Proof.
  induction reads as [|value reads IH]; intros d buffer w; simpl; [done|].
  destruct (decode d value) as [d' txt].
  destruct (parseSseChunk JSON_parse (buffer ++ txt) (onEvent opts) w);
    [apply IH | done].
Qed.

(** The decoding loop of [createSynthesisJob], from the first read: the
    sink is handed the payloads of the stream, [emitted], in order. *)
Lemma read_loop_emitted (opts : @Options W) (reads : list (list byte))
    (ending : option exn) (w : W) :
  retry_safe (onEvent opts) ->
  read_loop JSON_parse opts new_TextDecoder [] reads ending w =
  match ending with
  | None =>
      Normal (fold_left (after (onEvent opts)) (emitted JSON_parse reads) w) tt
  | Some e =>
      Throw (fold_left (after (onEvent opts)) (emitted JSON_parse reads) w) e
  end.
Proof.
  intros Hsink.
  destruct (read_loop_trace (onEvent opts) reads Hsink new_TextDecoder [])
    as (events & H1 & H2).
  assert (Hemitted : emitted JSON_parse reads = events).
  { unfold emitted. by rewrite H1. }
  destruct opts as [signal_ onEvent_]. cbn [onEvent] in *.
  destruct ending as [e|].
  - by rewrite read_loop_rejected, H2, Hemitted.
  - by rewrite H2, Hemitted.
Qed.

(** X1. A sink that never throws, or whose throws the retry of
    [parseSseChunk] hides as it does those of the callback of
    [handlePrompt], is handed the payloads of the stream one after the
    other: the state it ends in is the fold of the sink over [emitted], and
    a rejected read only turns the return into a throw. *)
Theorem sink_sees_emitted (opts : @Options W) (reads : list (list byte))
    (ending : option exn) (w : W) :
  never_throws (onEvent opts) \/ retry_safe (onEvent opts) ->
  read_loop JSON_parse opts new_TextDecoder [] reads ending w =
  match ending with
  | None =>
      Normal (fold_left (after (onEvent opts)) (emitted JSON_parse reads) w) tt
  | Some e =>
      Throw (fold_left (after (onEvent opts)) (emitted JSON_parse reads) w) e
  end.
Proof.
  intros [Hsink|Hsink]; apply read_loop_emitted; [|done].
  by apply never_throws_retry_safe.
Qed.

End Trace.

(** ** The stream path of [createSynthesisJob] *)

Section Streaming.
Context {W : Type}.
Variable JSON_parse : jsstring -> option json.
Variable fetch : json -> option AbortSignal -> Fetched.

Lemma startsWith_data_nonempty line :
  startsWith line (lit "data:") = true -> line <> [].
Proof. by destruct line. Qed.

(** A buffer that begins with a message and the blank line that completes
    it: the message is dispatched, and the rest of the buffer is parsed
    from the state that leaves. The blank line is the first one of the
    buffer: the message has none and does not end in a line break. *)
Lemma parseSseChunk_first_message (onEvent : option (@Sink W))
    (message rest : jsstring) (w : W) :
  includes (message ++ [LF]) [LF; LF] = false ->
  parseSseChunk JSON_parse (message ++ LF :: LF :: rest) onEvent w =
  match parseSseChunk_message JSON_parse onEvent message w with
  | Normal w' _ => parseSseChunk JSON_parse rest onEvent w'
  | Throw w' e => Throw w' e
  end.
Proof.
  unfold includes. intros Hfirst.
  destruct (break_at [LF; LF] (message ++ [LF])) eqn:E; [discriminate|].
  unfold parseSseChunk.
  rewrite (split_found LF [LF] _ _ _ (break_at_completed message rest E)).
  pose proof (split_nonempty LF [LF] rest) as Hne.
  destruct (split [LF; LF] rest) as [|piece pieces] eqn:Hrest; [done|].
  cbn [removelast List.last parseSseChunk_loop].
  by destruct (parseSseChunk_message JSON_parse onEvent message w).
Qed.

(** The same for a message whose beginning is the remainder of the text read
    before. *)
Lemma parseSseChunk_completed (onEvent : option (@Sink W))
    (buffer remainder tail rest : jsstring) (w w1 : W) :
  parseSseChunk JSON_parse buffer onEvent w = Normal w1 remainder ->
  includes ((remainder ++ tail) ++ [LF]) [LF; LF] = false ->
  parseSseChunk JSON_parse (buffer ++ tail ++ LF :: LF :: rest) onEvent w =
  match parseSseChunk_message JSON_parse onEvent (remainder ++ tail) w1 with
  | Normal w2 _ => parseSseChunk JSON_parse rest onEvent w2
  | Throw w2 e => Throw w2 e
  end.
Proof.
  intros Hbuffer Hfirst.
  rewrite parseSseChunk_app, Hbuffer, app_assoc.
  by apply parseSseChunk_first_message.
Qed.

(** C7. A message that a blank line completes, whether it arrived whole or
    begins with what was left of the text read before, and whose [data:]
    payload [JSON.parse] rejects, is not dropped: [parseSseChunk] hands the
    sink the payload text itself, and goes on with the text that follows
    the blank line. *)
Theorem malformed_payload_passes_through (onEvent : option (@Sink W))
    (buffer remainder tail rest line : jsstring) (w w1 : W) :
  parseSseChunk JSON_parse buffer onEvent w = Normal w1 remainder ->
  includes ((remainder ++ tail) ++ [LF]) [LF; LF] = false ->
  List.find (fun l => startsWith l (lit "data:"))
    (map trim (split [LF] (remainder ++ tail))) = Some line ->
  JSON_parse (trim (replace line (lit "data:") [])) = None ->
  parseSseChunk JSON_parse (buffer ++ tail ++ LF :: LF :: rest) onEvent w =
  match call onEvent (JStr (trim (replace line (lit "data:") []))) w1 with
  | Normal w2 _ => parseSseChunk JSON_parse rest onEvent w2
  | Throw w2 e => Throw w2 e
  end.
Proof.
  intros Hbuffer Hfirst Hline Hparse.
  rewrite (parseSseChunk_completed onEvent buffer remainder tail rest w w1
             Hbuffer Hfirst).
  unfold parseSseChunk_message. rewrite Hline.
  apply find_some in Hline as [_ Hdata].
  apply startsWith_data_nonempty in Hdata.
  destruct line as [|c line]; [done|].
  rewrite Hparse.
  by destruct (call onEvent _ w1) as [w2 []|w2 e].
Qed.

(** C10. When the response declares an event stream and has a body,
    [createSynthesisJob] is the decoding loop over that body, whatever
    [response.ok] is: the flag is not read. With a sink that never throws,
    or whose throws the retry of [parseSseChunk] hides, every payload of
    the stream is handed to the sink, in order, and the call then returns
    [null] when the stream ends; it rejects only when a read does, with
    the error of that read. The payloads of the stream are those of the
    whole body: what [parseSseChunk] dispatches from its decoded text. *)
Theorem stream_path_ignores_ok (payload : json) (opts : @Options W)
    (response : Response) (stream : ReadableStream) (w : W) :
  fetch payload (signal opts) = Responded response ->
  includes (default [] (content_type response)) (lit "text/event-stream")
    = true ->
  body response = Some stream ->
  createSynthesisJob JSON_parse fetch payload opts w =
    match read_loop JSON_parse opts new_TextDecoder [] (chunks stream)
            (ending stream) w with
    | Normal w' _ => Normal w' None
    | Throw w' e => Throw w' e
    end
  /\ (never_throws (onEvent opts) \/ retry_safe (onEvent opts) ->
      let w' := fold_left (after (onEvent opts))
                  (emitted JSON_parse (chunks stream)) w in
      createSynthesisJob JSON_parse fetch payload opts w =
      match ending stream with
      | None => Normal w' None
      | Some e => Throw w' e
      end)
  /\ emitted JSON_parse (chunks stream) =
     state_of (parseSseChunk JSON_parse
                 (snd (decode new_TextDecoder (concat (chunks stream))))
                 (Some record) []).
Proof.
  intros Hfetch Htype Hbody.
  assert (Hrun : createSynthesisJob JSON_parse fetch payload opts w =
    match read_loop JSON_parse opts new_TextDecoder [] (chunks stream)
            (ending stream) w with
    | Normal w' _ => Normal w' None
    | Throw w' e => Throw w' e
    end).
  { unfold createSynthesisJob. by rewrite Hfetch, Htype, Hbody. }
  split; [exact Hrun|]. split; [|apply emitted_whole_text].
  intros Hsink w'. rewrite Hrun.
  assert (Hsafe : retry_safe (onEvent opts)).
  { destruct Hsink as [Hsink|Hsink]; [by apply never_throws_retry_safe|done]. }
  rewrite (read_loop_emitted JSON_parse opts (chunks stream) (ending stream) w
             Hsafe).
  by destruct (ending stream).
Qed.

End Streaming.

Lemma malformed_payload_passes_through_witness :
  parseSseChunk parse_nothing
    ((lit "data: 1" ++ [LF; LF] ++ lit "data: {oo")
     ++ lit "ps" ++ LF :: LF :: lit "data: next" ++ [LF; LF])
    (Some record) []
  = Normal [JStr (lit "1"); JStr (lit "{oops"); JStr (lit "next")] [].
Proof.
  etrans.
  - apply (malformed_payload_passes_through parse_nothing (Some record)
             (lit "data: 1" ++ [LF; LF] ++ lit "data: {oo")
             (lit "data: {oo") (lit "ps") (lit "data: next" ++ [LF; LF])
             (lit "data: {oops") [] [JStr (lit "1")]);
      vm_compute; reflexivity.
  - vm_compute. reflexivity.
Defined.

Lemma stream_path_ignores_ok_witness :
  ok failing_stream_response = false
  /\ createSynthesisJob parse_nothing streaming_fetch (JObj [])
       {| signal := None; onEvent := Some record |} []
     = Normal [JStr (lit "1")] None.
Proof.
  split; [reflexivity|]. etrans.
  - apply (proj1 (proj2 (stream_path_ignores_ok parse_nothing streaming_fetch
                           (JObj [])
                           {| signal := None; onEvent := Some record |}
                           failing_stream_response
                           {| chunks := two_reads; ending := None |} []
                           eq_refl eq_refl eq_refl))).
    left. intros data seen. exists (seen ++ [data]). reflexivity.
  - vm_compute. reflexivity.
Defined.

(** ** The job registry *)

Section Registry.
Variable Number : jsstring -> number.
Variable Number_toString : number -> jsstring.
Variable clock : nat -> Z.

(** The record [updateJobProgress] leaves under the id it was called with. *)
Lemma updateJobProgress_lookup id_ p s (w : World) (job : JobState) :
  jobs w !! id_ = Some job ->
  jobs (updateJobProgress clock id_ p s w) !! id_ =
  Some {| id := id job;
          status := match s with
                    | Some s => if truthy s then s else status job
                    | None => status job
                    end;
          plan := plan job;
          artifacts := artifacts job;
          progress := Math_min p 100%float;
          createdAt := createdAt job;
          updatedAt := clock (ticks w);
          prompt := prompt job |}.
Proof.
  intros Hjob. unfold updateJobProgress. rewrite Hjob. simpl.
  destruct (decide (id job = id_)) as [->|Hne].
  - by rewrite lookup_insert_eq.
  - by rewrite lookup_insert_ne, lookup_insert_eq.
Qed.

(** Without a record under the id, [updateJobProgress] does nothing. *)
Lemma updateJobProgress_absent id_ p s (w : World) :
  jobs w !! id_ = None -> updateJobProgress clock id_ p s w = w.
Proof. intros Hjob. unfold updateJobProgress. by rewrite Hjob. Qed.

(** The callback of [handlePrompt] ignores every string, so the retry of
    [parseSseChunk] hides its throws. *)
Lemma handlePrompt_onEvent_retry_safe :
  retry_safe (Some (handlePrompt_onEvent Number Number_toString clock)).
Proof.
  split; [intros text w; exists w | intros data w w' e _ text];
    simpl; unfold handlePrompt_onEvent; cbn [typeof_object negb];
    by rewrite orb_true_r.
Qed.

(** What the callback does with an event whose [job_id] is in the
    registry. *)
Lemma handlePrompt_onEvent_known data i (w : World) (job : JobState) :
  prop "job_id" data = Some (JStr i) -> i <> [] ->
  jobs w !! i = Some job ->
  handlePrompt_onEvent Number Number_toString clock data w =
  match event_progress Number Number_toString data with
  | Some p => Normal (updateJobProgress clock i p (event_status data) w) tt
  | None => Throw w TypeError
  end.
Proof.
  intros Hid Hne Hjob. unfold handlePrompt_onEvent.
  destruct data; try discriminate. simpl negb. simpl orb. cbv iota.
  rewrite Hid. rewrite Hjob.
  rewrite bool_decide_eq_true_2 by eauto.
  by destruct i.
Qed.

(** C1, amended. An update for the id of a stored record that carries a
    status stores that status, whatever the stored one was (a terminal
    status is overwritten by an earlier one), and leaves the artifacts as
    they were. The status is any truthy value: [if (status)] tests nothing
    else. *)
Theorem update_overwrites_status id_ p s (w : World) (job : JobState) :
  truthy s = true ->
  jobs w !! id_ = Some job ->
  exists job',
    jobs (updateJobProgress clock id_ p (Some s) w) !! id_ = Some job'
    /\ status job' = s
    /\ artifacts job' = artifacts job.
Proof.
  intros Hs Hjob. eexists. split; [by apply updateJobProgress_lookup|].
  cbn [status artifacts]. by rewrite Hs.
Qed.

(** C3, amended. An event for a stored record whose status is absent or
    not terminal overwrites the stored progress with the smaller of 100 and
    the event's progress, whatever the stored progress was: the progress of
    a job can decrease. The event's progress is 50 when the event carries
    none or [null]; any other value is converted to a number, as
    [Math.min] does, and an event whose progress cannot be converted makes
    the callback throw before anything is stored. *)
Theorem event_overwrites_progress data i (w : World) (job : JobState) :
  prop "job_id" data = Some (JStr i) -> i <> [] ->
  jobs w !! i = Some job ->
  (forall s, event_status data = Some s -> terminal s = false) ->
  match event_progress Number Number_toString data with
  | Some p =>
      exists w' job',
        handlePrompt_onEvent Number Number_toString clock data w
        = Normal w' tt
        /\ jobs w' !! i = Some job'
        /\ progress job' = Math_min p 100%float
  | None =>
      handlePrompt_onEvent Number Number_toString clock data w
      = Throw w TypeError
  end.
Proof.
  intros Hid Hne Hjob _.
  rewrite (handlePrompt_onEvent_known data i w job Hid Hne Hjob).
  destruct (event_progress Number Number_toString data) as [p|]; [|done].
  do 2 eexists. split; [done|].
  split; [by apply updateJobProgress_lookup|]. done.
Qed.

(** C5, amended. An event whose [job_id] has no record in the registry is
    dropped: the callback leaves the registry as it is and creates no
    record. *)
Theorem unknown_event_is_dropped data (w : World) :
  (forall i, prop "job_id" data = Some (JStr i) -> jobs w !! i = None) ->
  handlePrompt_onEvent Number Number_toString clock data w = Normal w tt.
Proof.
  intros Hnew. unfold handlePrompt_onEvent.
  destruct (negb (truthy data) || negb (typeof_object data)); [done|].
  destruct (prop "job_id" data) as [[| | |i| |]|]; try done.
  rewrite (Hnew i eq_refl).
  rewrite bool_decide_eq_false_2; [by rewrite andb_false_r|].
  by intros [? ?].
Qed.

(** C4, amended. After a submission under the placeholder id and a response
    that carries the id of the service, the registry holds a record under
    the service's id with the prompt of the submission and a [createdAt]
    read when the response is handled; the placeholder record is not
    removed: when the ids differ it stays, unchanged, next to the other. *)
Theorem response_adds_record (text_ : jsstring) (r : SynthesisResponse)
    (w : World) :
  let tempId := fst (handlePrompt_submit clock text_ w) in
  let w1 := snd (handlePrompt_submit clock text_ w) in
  let w2 := handlePrompt_resolved clock (Some r) tempId text_ w1 in
  (exists job,
     jobs w2 !! job_id r = Some job
     /\ prompt job = text_
     /\ status job = response_status r
     /\ createdAt job = clock (ticks w1))
  /\ (exists placeholder,
        jobs w1 !! tempId = Some placeholder
        /\ createdAt placeholder = clock (S (ticks w))
        /\ (job_id r <> tempId -> jobs w2 !! tempId = Some placeholder)).
Proof.
  simpl. unfold handlePrompt_submit, handlePrompt_resolved, toJobStatus,
    upsertJob, set_jobs, Date_now. simpl. split.
  - eexists. split; [apply lookup_insert_eq|]. done.
  - eexists. split; [apply lookup_insert_eq|]. split; [done|].
    intros Hne. by rewrite lookup_insert_ne, lookup_insert_eq.
Qed.

End Registry.

(** C1 fails as stated: a record that is [completed] turns [running] when an
    event for its id carries that status. *)
Lemma terminal_status_is_overwritten :
  exists w',
    handlePrompt_onEvent Number0 Number_toString0 clock0
      (event "j1" (Some "running") (Some 40%float))
      (registry_of (job_j1 completed 100%float)) = Normal w' tt
    /\ status <$> jobs (registry_of (job_j1 completed 100%float)) !! lit "j1"
       = Some completed
    /\ status <$> jobs w' !! lit "j1" = Some running.
Proof. eexists. split; [reflexivity|]. split; vm_compute; reflexivity. Qed.

(** C3 fails as stated: a stored progress of 80 drops to 40 on an event
    that carries the progress 40. *)
Lemma progress_can_decrease :
  exists w',
    handlePrompt_onEvent Number0 Number_toString0 clock0
      (event "j1" None (Some 40%float))
      (registry_of (job_j1 running 80%float)) = Normal w' tt
    /\ progress <$> jobs (registry_of (job_j1 running 80%float)) !! lit "j1"
       = Some 80%float
    /\ progress <$> jobs w' !! lit "j1" = Some 40%float
    /\ PrimFloat.leb 80 40 = false.
Proof.
  eexists. split; [reflexivity|]. repeat split; vm_compute; reflexivity.
Qed.

(** A progress that is a string is converted as [Math.min] converts it: the
    stored 80 becomes the 40 of the string. *)
Example string_progress_is_converted :
  exists w',
    handlePrompt_onEvent Number0 Number_toString0 clock0
      (JObj [(lit "job_id", JStr (lit "j1"));
             (lit "progress", JStr (lit "40"))])
      (registry_of (job_j1 running 80%float)) = Normal w' tt
    /\ progress <$> jobs w' !! lit "j1" = Some 40%float.
Proof. eexists. split; [reflexivity|]. vm_compute. reflexivity. Qed.

(** A status outside the type is stored like any other truthy value. *)
Example unlisted_status_is_stored :
  exists w',
    handlePrompt_onEvent Number0 Number_toString0 clock0
      (event "j1" (Some "cancelled") None)
      (registry_of (job_j1 running 80%float)) = Normal w' tt
    /\ status <$> jobs w' !! lit "j1" = Some (JStr (lit "cancelled")).
Proof. eexists. split; [reflexivity|]. vm_compute. reflexivity. Qed.

(** A progress that cannot be converted to a number makes the callback
    throw, and the registry stays as it was. *)
Example unconvertible_progress_throws :
  handlePrompt_onEvent Number0 Number_toString0 clock0
    (JObj [(lit "job_id", JStr (lit "j1"));
           (lit "progress", JObj [(lit "toString", JNum 1%float)])])
    (registry_of (job_j1 running 80%float))
  = Throw (registry_of (job_j1 running 80%float)) TypeError.
Proof. reflexivity. Qed.

(** An event that carries [completed] and no progress leaves the progress
    at the default of the callback, 50. *)
Example completed_event_without_progress :
  exists w',
    handlePrompt_onEvent Number0 Number_toString0 clock0
      (event "j1" (Some "completed") None)
      (registry_of (job_j1 running 80%float)) = Normal w' tt
    /\ status <$> jobs w' !! lit "j1" = Some completed
    /\ progress <$> jobs w' !! lit "j1" = Some 50%float.
Proof.
  eexists. split; [reflexivity|]. split; vm_compute; reflexivity.
Qed.

(** C5 fails as stated: an event for an id that has no record creates
    none. *)
Lemma unknown_event_creates_no_record :
  exists w',
    handlePrompt_onEvent Number0 Number_toString0 clock0
      (event "j9" (Some "running") (Some 30%float))
      (registry_of (job_j1 running 80%float)) = Normal w' tt
    /\ jobs (registry_of (job_j1 running 80%float)) !! lit "j9" = None
    /\ jobs w' !! lit "j9" = None.
Proof. eexists. split; [reflexivity|]. split; vm_compute; reflexivity. Qed.

(** C4 fails as stated: after the response the registry holds two records,
    the placeholder and the one under the id of the service, and their
    [createdAt] differ. *)
Lemma placeholder_is_not_rekeyed :
  let tempId := fst (handlePrompt_submit clock0 (lit "hello") empty_registry) in
  let w1 := snd (handlePrompt_submit clock0 (lit "hello") empty_registry) in
  let w2 := handlePrompt_resolved clock0 (Some planned_response) tempId
              (lit "hello") w1 in
  tempId = lit "job-1700000000000"
  /\ size (jobs w2) = 2%nat
  /\ status <$> jobs w2 !! tempId = Some queued
  /\ createdAt <$> jobs w2 !! tempId = Some 1700000000001%Z
  /\ status <$> jobs w2 !! lit "j1" = Some planned
  /\ createdAt <$> jobs w2 !! lit "j1" = Some 1700000000003%Z.
Proof. vm_compute. repeat split; reflexivity. Qed.

(** ** Witnesses and scenarios *)

Lemma update_overwrites_status_witness :
  exists job',
    jobs (updateJobProgress clock0 (lit "j1") 40%float (Some running)
            (registry_of (job_j1 completed 100%float))) !! lit "j1" = Some job'
    /\ status job' = running
    /\ artifacts job' = artifacts (job_j1 completed 100%float).
Proof.
  apply (update_overwrites_status clock0 (lit "j1") 40%float running
           (registry_of (job_j1 completed 100%float))
           (job_j1 completed 100%float)).
  - reflexivity.
  - vm_compute. reflexivity.
Defined.

Lemma event_overwrites_progress_witness :
  exists w' job',
    handlePrompt_onEvent Number0 Number_toString0 clock0
      (event "j1" None (Some 40%float))
      (registry_of (job_j1 running 80%float)) = Normal w' tt
    /\ jobs w' !! lit "j1" = Some job'
    /\ progress job' = Math_min 40%float 100%float.
Proof.
  apply (event_overwrites_progress Number0 Number_toString0 clock0
           (event "j1" None (Some 40%float))
           (lit "j1") (registry_of (job_j1 running 80%float))
           (job_j1 running 80%float)).
  - reflexivity.
  - discriminate.
  - vm_compute. reflexivity.
  - intros s Hs. vm_compute in Hs. discriminate.
Defined.

Lemma unknown_event_is_dropped_witness :
  handlePrompt_onEvent Number0 Number_toString0 clock0
    (event "j9" (Some "running") (Some 30%float))
    (registry_of (job_j1 running 80%float))
  = Normal (registry_of (job_j1 running 80%float)) tt.
Proof.
  apply (unknown_event_is_dropped Number0 Number_toString0 clock0).
  intros i Hi. vm_compute in Hi. injection Hi as <-.
  vm_compute. reflexivity.
Defined.

(** Scenario A: a dry run answered by one JSON document leaves the job
    [j1] in the registry, [planned] and without artifacts. *)
Example scenario_A :
  exists w',
    handlePrompt Number0 Number_toString0 clock0 (fun _ => None)
      planned_fetch hello_form empty_registry = Some w'
    /\ status <$> jobs w' !! lit "j1" = Some planned
    /\ artifacts <$> jobs w' !! lit "j1" = Some []
    /\ prompt <$> jobs w' !! lit "j1" = Some (lit "hello").
Proof. eexists. split; [vm_compute; reflexivity|]. repeat split; vm_compute; reflexivity. Qed.

(** An empty prompt stops [handlePrompt] before anything is submitted. *)
Example empty_prompt_is_not_submitted :
  handlePrompt Number0 Number_toString0 clock0 (fun _ => None) planned_fetch
    {| textPrompt := lit "  ";
       videoResolution := lit "1920x1080"; videoFps := lit "30";
       captionText_value := []; enableCaptions := true;
       enableRealtime := false; enableHdAudio := false;
       textTemp_value := lit "0.7"; waveformTemp_value := lit "0.7";
       outputDir_value := []; jobPrefix_value := [];
       dryRunToggle := true; renderVideoToggle := false |}
    empty_registry = Some empty_registry.
Proof. vm_compute. reflexivity. Qed.

(** * Further properties *)

(** ** Invariants of the registry *)

Section RegistryInvariants.
Variable Number : jsstring -> number.
Variable Number_toString : number -> jsstring.
Variable clock : nat -> Z.

Lemma same_core_refl job : same_core job job.
Proof. by repeat split. Qed.

Lemma same_core_trans job1 job2 job3 :
  same_core job1 job2 -> same_core job2 job3 -> same_core job1 job3.
Proof. unfold same_core. intros (?&?&?&?&?) (?&?&?&?&?). repeat split; congruence. Qed.

Lemma upsertJob_keyed job (w : World) : keyed w -> keyed (upsertJob job w).
Proof.
  intros Hk k job'. unfold upsertJob. simpl.
  destruct (decide (id job = k)) as [<-|Hne].
  - rewrite lookup_insert_eq. by intros [= <-].
  - rewrite lookup_insert_ne by done. apply Hk.
Qed.

(** What [updateJobProgress] does to a registry in which the record under
    [i] carries the id [i]. *)
Lemma updateJobProgress_keyed_jobs i p s (w : World) (job : JobState) :
  jobs w !! i = Some job -> id job = i ->
  jobs (updateJobProgress clock i p s w) =
  <[i := {| id := id job;
            status := match s with
                      | Some s => if truthy s then s else status job
                      | None => status job
                      end;
            plan := plan job;
            artifacts := artifacts job;
            progress := Math_min p 100%float;
            createdAt := createdAt job;
            updatedAt := clock (ticks w);
            prompt := prompt job |}]> (jobs w).
Proof.
  intros Hjob Hid. unfold updateJobProgress. rewrite Hjob. simpl.
  rewrite Hid. by rewrite insert_insert_eq.
Qed.

Lemma updateJobProgress_ticks i p s (w : World) (job : JobState) :
  jobs w !! i = Some job ->
  ticks (updateJobProgress clock i p s w) = S (ticks w).
Proof. intros Hjob. unfold updateJobProgress. by rewrite Hjob. Qed.

(** The callback either leaves the registry alone, also when it throws, or
    updates a record that is there. *)
Lemma handlePrompt_onEvent_cases data (w : World) :
  after (Some (handlePrompt_onEvent Number Number_toString clock)) w data = w
  \/ exists i job p,
       prop "job_id" data = Some (JStr i) /\ jobs w !! i = Some job
       /\ after (Some (handlePrompt_onEvent Number Number_toString clock))
            w data
          = updateJobProgress clock i p (event_status data) w.
Proof.
  unfold after. simpl. unfold handlePrompt_onEvent.
  destruct (negb (truthy data) || negb (typeof_object data)); [by left|].
  destruct (prop "job_id" data) as [[| | |i| |]|]; try by left.
  destruct (jobs w !! i) as [job|] eqn:Hjob.
  - destruct (truthy (JStr i)); [|by left].
    rewrite bool_decide_eq_true_2 by eauto.
    destruct (event_progress Number Number_toString data) as [p|];
      [|by left].
    right. by exists i, job, p.
  - rewrite bool_decide_eq_false_2; [rewrite andb_false_r; by left|].
    by intros [? ?].
Qed.

Lemma handlePrompt_onEvent_kept (w0 : World) data (w : World) :
  kept w0 w ->
  kept w0 (after (Some (handlePrompt_onEvent Number Number_toString clock))
             w data).
Proof.
  intros (Hk & Hdom & Hcore).
  destruct (handlePrompt_onEvent_cases data w)
    as [->|(i & job & p & _ & Hjob & ->)]; [done|].
  pose proof (Hk i job Hjob) as Hid.
  pose proof (updateJobProgress_keyed_jobs i p
                (event_status data) w job Hjob Hid) as Hjobs.
  split; [|split].
  - intros k job'. rewrite Hjobs.
    destruct (decide (i = k)) as [<-|Hne].
    + rewrite lookup_insert_eq. by intros [= <-].
    + rewrite lookup_insert_ne by done. apply Hk.
  - rewrite Hjobs, dom_insert_L, <- Hdom.
    apply subseteq_union_1_L, singleton_subseteq_l, elem_of_dom. eauto.
  - intros k job0 Hjob0. destruct (Hcore k job0 Hjob0) as (job1 & Hjob1 & Hsame).
    rewrite Hjobs. destruct (decide (i = k)) as [<-|Hne].
    + rewrite lookup_insert_eq. eexists. split; [done|].
      rewrite Hjob in Hjob1. injection Hjob1 as <-.
      eapply same_core_trans; [exact Hsame|]. by repeat split.
    + rewrite lookup_insert_ne by done. eauto.
Qed.

(** A registry keeps itself. *)
Lemma kept_refl (w : World) : keyed w -> kept w w.
Proof.
  intros Hk. split; [done|]. split; [done|].
  intros k job Hjob. exists job. split; [done | apply same_core_refl].
Qed.

(** X2. Streamed events never create or delete a record, and never change
    the id, plan, artifacts, creation time or prompt of one: whatever the
    service streams and however [createSynthesisJob] ends, the registry has
    the same ids as before, each record stored under its own id and with
    those fields as they were. *)
Theorem events_keep_records (JSON_parse : jsstring -> option json)
    (fetch : json -> option AbortSignal -> Fetched) (payload : json)
    (signal_ : option AbortSignal) (w : World) :
  keyed w ->
  let w' := state_of (createSynthesisJob JSON_parse fetch payload
                        {| signal := signal_;
                           onEvent :=
                             Some (handlePrompt_onEvent Number
                                     Number_toString clock) |} w) in
  keyed w' /\ dom (jobs w') = dom (jobs w) /\ core_kept w w'.
Proof.
  intros Hk.
  apply (createSynthesisJob_preserves JSON_parse (kept w)).
  - intros data w1. apply handlePrompt_onEvent_kept.
  - by apply kept_refl.
Qed.

End RegistryInvariants.

Section RegistryStreams.
Variable Number : jsstring -> number.
Variable Number_toString : number -> jsstring.
Variable clock : nat -> Z.

Lemma fold_other_ids (k : jsstring) (events : list json) : forall w : World,
  keyed w ->
  (forall data, data ∈ events -> prop "job_id" data <> Some (JStr k)) ->
  keyed (fold_left
           (after (Some (handlePrompt_onEvent Number Number_toString clock)))
           events w)
  /\ jobs (fold_left
             (after (Some (handlePrompt_onEvent Number Number_toString clock)))
             events w) !! k
     = jobs w !! k.
Proof.
  induction events as [|data events IH]; intros w Hk Hother; [done|].
  simpl.
  assert (Hstep :
    keyed (after (Some (handlePrompt_onEvent Number Number_toString clock))
             w data)
    /\ jobs (after (Some (handlePrompt_onEvent Number Number_toString clock))
               w data) !! k
       = jobs w !! k).
  { split.
    - apply (handlePrompt_onEvent_kept Number Number_toString clock w data w).
      by apply kept_refl.
    - destruct (handlePrompt_onEvent_cases Number Number_toString clock data w)
        as [->|(i & job & p & Hi & Hjob & ->)]; [done|].
      rewrite (updateJobProgress_keyed_jobs clock i _ _ w job Hjob
                 (Hk i job Hjob)).
      apply lookup_insert_ne. intros ->.
      apply (Hother data); [left | done]. }
  destruct Hstep as [Hk' Hsame].
  destruct (IH _ Hk') as [Hk'' Hsame'].
  { intros data' Hin. apply Hother. by right. }
  split; [done|]. by rewrite Hsame'.
Qed.

(** X3. The record of a job depends only on the events that carry its id: a
    stream none of whose payloads carries the id [k] leaves the record
    under [k] exactly as it was, whatever it does to other records. *)
Theorem other_ids_do_not_interfere (JSON_parse : jsstring -> option json)
    (signal_ : option AbortSignal) (reads : list (list byte))
    (ending : option exn) (k : jsstring) (w : World) :
  keyed w ->
  (forall data, data ∈ emitted JSON_parse reads ->
                prop "job_id" data <> Some (JStr k)) ->
  jobs (state_of (read_loop JSON_parse
                    {| signal := signal_;
                       onEvent :=
                         Some (handlePrompt_onEvent Number Number_toString
                                 clock) |}
                    new_TextDecoder [] reads ending w)) !! k
  = jobs w !! k.
Proof.
  intros Hk Hother.
  rewrite (read_loop_emitted JSON_parse
             {| signal := signal_;
                onEvent :=
                  Some (handlePrompt_onEvent Number Number_toString clock) |}
             reads ending w
             (handlePrompt_onEvent_retry_safe Number Number_toString clock)).
  cbn [onEvent].
  destruct ending as [e|]; cbn [state_of]; by apply fold_other_ids.
Qed.

End RegistryStreams.

(** ** [handlePrompt] as a whole *)

Lemma keyed_empty : keyed empty_registry.
Proof. by intros k job. Qed.

Lemma keyed_registry_of job : keyed (registry_of job).
Proof.
  intros k job'. unfold registry_of. cbn [jobs].
  by intros [<- <-]%lookup_singleton_Some.
Qed.

Section Submission.
Variable Number : jsstring -> number.
Variable Number_toString : number -> jsstring.
Variable clock : nat -> Z.
Variable JSON_parse : jsstring -> option json.
Variable fetch : json -> option AbortSignal -> Fetched.

Lemma handlePrompt_submit_eq text_ (w : World) :
  handlePrompt_submit clock text_ w =
  (placeholder clock (ticks w),
   {| jobs :=
        <[placeholder clock (ticks w) :=
            {| id := placeholder clock (ticks w);
               status := queued;
               plan := {| prompt_length := number_of_nat (length text_);
                          modalities := [lit "audio"];
                          render_video := false;
                          dry_run := true;
                          video_overrides := None;
                          routing_priorities := None |};
               artifacts := [];
               progress := 10%float;
               createdAt := clock (S (ticks w));
               updatedAt := clock (S (S (ticks w)));
               prompt := text_ |}]> (jobs w);
      ticks := S (S (S (ticks w))) |}).
Proof. reflexivity. Qed.

Lemma handlePrompt_submit_keyed text_ (w : World) :
  keyed w -> keyed (snd (handlePrompt_submit clock text_ w)).
Proof.
  intros Hk. rewrite handlePrompt_submit_eq. intros k job. cbn [snd jobs].
  destruct (decide (placeholder clock (ticks w) = k)) as [<-|Hne].
  - rewrite lookup_insert_eq. by intros [= <-].
  - rewrite lookup_insert_ne by done. apply Hk.
Qed.

(** What the events of a submission keep of the registry it started
    from, however [createSynthesisJob] ends. *)
Lemma handlePrompt_stream_kept payload (w : World) :
  keyed w ->
  kept w (state_of
            (createSynthesisJob JSON_parse fetch payload
               {| signal := None;
                  onEvent :=
                    Some (handlePrompt_onEvent Number Number_toString clock) |}
               w)).
Proof.
  intros Hk.
  apply (createSynthesisJob_preserves JSON_parse (kept w)).
  - intros data w1. apply handlePrompt_onEvent_kept.
  - by apply kept_refl.
Qed.

(** The [catch] clause of [handlePrompt] on a registry that holds the
    placeholder under its own id: the placeholder is marked, and no other
    record is touched. *)
Lemma handlePrompt_rejected_jobs tempId (w : World) (job : JobState) :
  jobs w !! tempId = Some job -> id job = tempId ->
  jobs (handlePrompt_rejected clock tempId w) =
  <[tempId := {| id := id job; status := failed; plan := plan job;
                 artifacts := artifacts job; progress := 100%float;
                 createdAt := createdAt job; updatedAt := clock (ticks w);
                 prompt := prompt job |}]> (jobs w).
Proof.
  intros Hjob Hid. unfold handlePrompt_rejected.
  by rewrite (updateJobProgress_keyed_jobs clock tempId _ _ w job Hjob Hid).
Qed.




End Submission.



Section SubmissionInvariants.
Variable Number : jsstring -> number.
Variable Number_toString : number -> jsstring.
Variable clock : nat -> Z.
Variable JSON_parse : jsstring -> option json.
Variable fetch : json -> option AbortSignal -> Fetched.

Lemma trimStart_spaces (s : jsstring) :
  Forall (fun c => is_space c = true) s -> trimStart s = [].
Proof. induction 1 as [|c s Hc _ IH]; [done|]. simpl. by rewrite Hc. Qed.

Lemma validate_empty_prompt (payload : Payload) :
  text payload = [] ->
  exists rest, validate payload = lit "Prompt cannot be empty." :: rest.
Proof.
  intros Htext. unfold validate. rewrite Htext.
  destruct (_ || _), (_ || _), (PrimFloat.leb _ _); simpl; eauto.
Qed.

(** X6. A prompt made of white space only is trimmed to the empty string:
    [validate] reports [Prompt cannot be empty.] first, and [handlePrompt]
    returns with the registry and the clock untouched, without submitting
    anything. *)
Theorem blank_prompt_is_not_submitted (form : Form) (w : World) :
  Forall (fun c => is_space c = true) (textPrompt form) ->
  head (validate (buildPayload Number form))
    = Some (lit "Prompt cannot be empty.")
  /\ handlePrompt Number Number_toString clock JSON_parse fetch form w
     = Some w.
Proof.
  intros Hblank.
  destruct (validate_empty_prompt (buildPayload Number form)) as [rest Hv].
  { simpl. unfold trim. by rewrite (trimStart_spaces _ Hblank). }
  split; [by rewrite Hv|]. unfold handlePrompt. by rewrite Hv.
Qed.

Lemma handlePrompt_resolved_jobs result tempId text_ (w : World) :
  exists job,
    id job = match result with Some r => job_id r | None => tempId end
    /\ createdAt job = clock (ticks w)
    /\ updatedAt job = clock (S (ticks w))
    /\ handlePrompt_resolved clock result tempId text_ w =
       {| jobs := <[match result with Some r => job_id r | None => tempId end
                    := job]> (jobs w);
          ticks := S (S (ticks w)) |}.
Proof.
  destruct result as [r|];
    (eexists; split; [|split; [|split]]; [| | |reflexivity]; reflexivity).
Qed.

(** What [createSynthesisJob] resolves to when it resolves to a document:
    the body of an answer with a success status that was read as a whole,
    or [{}] when that body is not JSON; no event has been dispatched. *)
Lemma createSynthesisJob_document {W : Type} payload (opts : @Options W)
    (w w1 : W) (data : json) :
  createSynthesisJob JSON_parse fetch payload opts w = Normal w1 (Some data) ->
  exists response,
    fetch payload (signal opts) = Responded response
    /\ ok response = true
    /\ data = default (JObj []) (json_body response)
    /\ w1 = w.
Proof.
  unfold createSynthesisJob.
  destruct (fetch payload (signal opts)) as [response|e]; [|done].
  intros Hrun. exists response. split; [done|].
  assert (Hdocument :
    (let data0 := default (JObj []) (json_body response) in
     if negb (ok response)
     then match data0 with
          | JNull => Throw w TypeError
          | _ => match prop "detail" data0 with
                 | Some detail =>
                     if truthy detail then Throw w (Error detail)
                     else Throw w (Error (JStr (lit "Request failed")))
                 | None => Throw w (Error (JStr (lit "Request failed")))
                 end
          end
     else @Normal W (option json) w (Some data0)) = Normal w1 (Some data) ->
    ok response = true
    /\ data = default (JObj []) (json_body response) /\ w1 = w).
  { cbv zeta. destruct (ok response); cbn [negb].
    - by intros [= <- <-].
    - destruct (default (JObj []) (json_body response)); try done;
        destruct (prop "detail" _) as [detail|]; try done;
        by destruct (truthy detail). }
  destruct (includes _ _); [|by apply Hdocument].
  destruct (body response) as [stream|]; [|by apply Hdocument].
  by destruct (read_loop _ _ _ _ _ _ _) as [w' []|w' e].
Qed.


End SubmissionInvariants.

Section Timestamps.
Variable Number : jsstring -> number.
Variable Number_toString : number -> jsstring.
Variable clock : nat -> Z.
Variable JSON_parse : jsstring -> option json.
Variable fetch : json -> option AbortSignal -> Fetched.
Hypothesis clock_monotone : monotone clock.

(** Storing, after a reading at tick [u], a record whose timestamps are in
    order and not later than that reading. *)
Lemma stamped_insert (m : gmap jsstring JobState) (t t' u : nat)
    (k : jsstring) (job : JobState) :
  stamped clock {| jobs := m; ticks := t |} -> (t <= t')%nat ->
  (createdAt job <= updatedAt job)%Z ->
  (u < t')%nat -> (updatedAt job <= clock u)%Z ->
  stamped clock {| jobs := <[k := job]> m; ticks := t' |}.
Proof.
  intros Hw Ht Hcreated Hu Hupdated k' job'. cbn [jobs ticks].
  destruct (decide (k = k')) as [<-|Hne].
  - rewrite lookup_insert_eq. intros [= <-]. eauto.
  - rewrite lookup_insert_ne by done. intros Hjob'.
    destruct (Hw k' job' Hjob') as (H1 & t0 & H2 & H3). cbn [ticks] in H2.
    split; [done|]. exists t0. split; [lia | done].
Qed.

Lemma updateJobProgress_stamped i p s (w : World) :
  stamped clock w -> stamped clock (updateJobProgress clock i p s w).
Proof using clock_monotone.
  destruct w as [m t]. intros Hw. unfold updateJobProgress. cbn [jobs].
  destruct (m !! i) as [job|] eqn:Hjob; [|done].
  destruct (Hw i job Hjob) as (H1 & t0 & H2 & H3). cbn [ticks] in H2.
  pose proof (clock_monotone t0 t ltac:(lia)) as Hstep.
  unfold upsertJob, set_jobs, Date_now. cbn -[Math_min truthy].
  apply (stamped_insert _ (S t) (S t) t); cbn [createdAt updatedAt];
    try lia.
  apply (stamped_insert m t (S t) t); cbn [createdAt updatedAt];
    try done; lia.
Qed.

Lemma handlePrompt_onEvent_stamped data (w : World) :
  stamped clock w ->
  stamped clock
    (after (Some (handlePrompt_onEvent Number Number_toString clock)) w data).
Proof using clock_monotone.
  intros Hw.
  destruct (handlePrompt_onEvent_cases Number Number_toString clock data w)
    as [->|(i & job & p & _ & _ & ->)]; [done|].
  by apply updateJobProgress_stamped.
Qed.


End Timestamps.

(** ** More on numbers *)

Lemma SFcompare_refl x : x <> S754_nan -> SFcompare x x = Some Eq.
Proof.
  destruct x as [[]|[]| |[] m e]; simpl; try done;
    intros _; rewrite Z.compare_refl, Pos.compare_cont_refl; done.
Qed.

Lemma is_nan_Prim2SF (x : number) :
  PrimFloat.is_nan x = true <-> Prim2SF x = S754_nan.
Proof.
  unfold PrimFloat.is_nan. rewrite FloatAxioms.eqb_spec. unfold SFeqb. split.
  - intros H. destruct (Prim2SF x) as [s|s| |s m e] eqn:Hx; [| |done|];
      by rewrite SFcompare_refl in H.
  - by intros ->.
Qed.

Lemma is_nan_false_Prim2SF (x : number) :
  PrimFloat.is_nan x = false -> Prim2SF x <> S754_nan.
Proof.
  intros H Hx. apply is_nan_Prim2SF in Hx. congruence.
Qed.

(** Two numbers neither of which is [NaN] compare. *)
Lemma SFcompare_total x y :
  x <> S754_nan -> y <> S754_nan -> exists c, SFcompare x y = Some c.
Proof. destruct x as [| | |], y as [| | |]; simpl; intros; try done; eauto. Qed.

Lemma NaN_compares_false (x y : number) :
  PrimFloat.is_nan x = true ->
  PrimFloat.ltb x y = false /\ PrimFloat.ltb y x = false
  /\ PrimFloat.leb x y = false /\ PrimFloat.leb y x = false.
Proof.
  intros H. apply is_nan_Prim2SF in H.
  rewrite !ltb_spec, !leb_spec. unfold SFltb, SFleb. rewrite H.
  by destruct (Prim2SF y).
Qed.

Lemma not_ltb_leb (x y : number) :
  PrimFloat.is_nan x = false -> PrimFloat.is_nan y = false ->
  PrimFloat.ltb x y = false -> PrimFloat.leb y x = true.
Proof.
  intros Hx Hy. apply is_nan_false_Prim2SF in Hx, Hy.
  rewrite ltb_spec, leb_spec. unfold SFltb, SFleb.
  rewrite (SFcompare_antisym (Prim2SF x) (Prim2SF y)).
  destruct (SFcompare_total _ _ Hx Hy) as [c ->]. by destruct c.
Qed.

Lemma ltb_leb (x y : number) :
  PrimFloat.ltb x y = true -> PrimFloat.leb x y = true.
Proof.
  rewrite ltb_spec, leb_spec. unfold SFltb, SFleb.
  by destruct (SFcompare (Prim2SF x) (Prim2SF y)) as [[]|].
Qed.

Lemma is_zero_leb_100 (x : number) :
  PrimFloat.is_zero x = true -> PrimFloat.leb x 100 = true.
Proof.
  unfold PrimFloat.is_zero. rewrite FloatAxioms.eqb_spec, leb_spec.
  replace (Prim2SF PrimFloat.zero) with (S754_zero false)
    by (vm_compute; reflexivity).
  replace (Prim2SF 100) with (S754_finite false 7036874417766400 (-46))
    by (vm_compute; reflexivity).
  unfold SFeqb, SFleb.
  by destruct (Prim2SF x) as [[]|[]| |[] m e].
Qed.

(** [Math.min(x, 100)] is at most 100, unless [x] is [NaN]. *)
Lemma Math_min_100 (x : number) :
  (PrimFloat.is_nan x = false ->
   PrimFloat.leb (Math_min x 100%float) 100 = true)
  /\ (PrimFloat.is_nan x = true ->
      PrimFloat.is_nan (Math_min x 100%float) = true).
Proof.
  unfold Math_min. split; intros Hx; rewrite Hx; [|done].
  cbn [orb]. replace (PrimFloat.is_nan 100) with false by done.
  destruct (PrimFloat.ltb x 100) eqn:Hlt; [by apply ltb_leb|].
  destruct (PrimFloat.ltb 100 x); [done|].
  destruct (PrimFloat.is_zero x) eqn:Hz; [|done].
  destruct (PrimFloat.get_sign x); [by apply is_zero_leb_100 | done].
Qed.

(** ** More on the form and its validation *)

(** The error messages are four different strings. *)
Lemma validate_In (payload : Payload) :
  (In (lit "Text temperature must be 0-1.5.") (validate payload) <->
   PrimFloat.ltb (textTemp payload) 0 || PrimFloat.ltb 1.5 (textTemp payload)
   = true)
  /\ (In (lit "Waveform temperature must be 0-1.5.") (validate payload) <->
      PrimFloat.ltb (waveformTemp payload) 0
      || PrimFloat.ltb 1.5 (waveformTemp payload) = true)
  /\ (In (lit "FPS must be greater than zero.") (validate payload) <->
      PrimFloat.leb (fps payload) 0 = true).
Proof.
  unfold validate.
  destruct (text payload) as [|c t];
    destruct (PrimFloat.ltb (textTemp payload) 0
              || PrimFloat.ltb 1.5 (textTemp payload));
    destruct (PrimFloat.ltb (waveformTemp payload) 0
              || PrimFloat.ltb 1.5 (waveformTemp payload));
    destruct (PrimFloat.leb (fps payload) 0);
    cbn [app In];
    (split; [|split]);
    (split; [try done; intros H; exfalso; cbv in H; intuition discriminate
            | try done; intros _; tauto]).
Qed.

Section Forms.
Variable Number : jsstring -> number.

(** X9. A temperature below 0 or above 1.5 is always reported, each
    temperature with its own message, whatever else is wrong with the
    payload. *)
Theorem temperature_out_of_range_is_reported (payload : Payload) :
  (PrimFloat.ltb (textTemp payload) 0 = true
   \/ PrimFloat.ltb 1.5 (textTemp payload) = true <->
   In (lit "Text temperature must be 0-1.5.") (validate payload))
  /\ (PrimFloat.ltb (waveformTemp payload) 0 = true
      \/ PrimFloat.ltb 1.5 (waveformTemp payload) = true <->
      In (lit "Waveform temperature must be 0-1.5.") (validate payload)).
Proof.
  destruct (validate_In payload) as (Ht & Hw & _).
  rewrite Ht, Hw, !orb_true_iff. tauto.
Qed.

(** X10. A frame rate that is [NaN], as [Number] gives for a field that does
    not parse, raises no error: [NaN <= 0] is false. *)
Theorem NaN_fps_is_not_reported (payload : Payload) :
  PrimFloat.is_nan (fps payload) = true ->
  ~ In (lit "FPS must be greater than zero.") (validate payload).
Proof.
  intros Hnan. destruct (validate_In payload) as (_ & _ & ->).
  destruct (NaN_compares_false (fps payload) 0%float Hnan) as (_ & _ & -> & _).
  done.
Qed.

Lemma or_number_truthy (x : number) :
  truthy_number (or_number x 0.7%float) = true.
Proof. unfold or_number. by destruct (truthy_number x) eqn:E. Qed.

(** X11. The temperatures of a payload built from the form are never [NaN]
    and never zero: a field that reads 0 or does not parse is replaced by
    0.7. So on such a payload the temperature check of [validate] is exactly
    the test [0 <= t <= 1.5], and a temperature of 0 cannot be submitted. *)
Theorem form_temperatures (form : Form) :
  let payload := buildPayload Number form in
  truthy_number (textTemp payload) = true
  /\ truthy_number (waveformTemp payload) = true
  /\ (truthy_number (Number (textTemp_value form)) = false ->
      textTemp payload = 0.7%float)
  /\ (~ In (lit "Text temperature must be 0-1.5.") (validate payload) <->
      PrimFloat.leb 0 (textTemp payload) = true
      /\ PrimFloat.leb (textTemp payload) 1.5 = true).
Proof.
  intros payload. split; [apply or_number_truthy|].
  split; [apply or_number_truthy|]. split.
  - intros H. cbn. unfold or_number. by rewrite H.
  - destruct (validate_In payload) as (-> & _ & _).
    assert (Hnan : PrimFloat.is_nan (textTemp payload) = false).
    { pose proof (or_number_truthy (Number (textTemp_value form))) as H.
      unfold truthy_number in H. apply negb_true_iff, orb_false_iff in H.
      apply H. }
    rewrite not_true_iff_false, orb_false_iff. split.
    + intros [H0 H1]. split; by apply not_ltb_leb.
    + intros [H0 H1]. split; by apply leb_not_ltb.
Qed.

(** X12. Whenever a form passes validation, the caption that is sent is not
    empty: a caption field left blank falls back to the prompt. *)
Theorem caption_falls_back_to_prompt (form : Form) :
  let payload := buildPayload Number form in
  validate payload = [] ->
  captionText payload <> []
  /\ (Forall (fun c => is_space c = true) (captionText_value form) ->
      captionText payload = text payload).
Proof.
  intros payload Hvalid.
  assert (Htext : text payload <> []).
  { intros Htext. destruct (validate_empty_prompt payload Htext) as [rest H].
    congruence. }
  split.
  - cbn. unfold or_string.
    destruct (trim (captionText_value form)) eqn:E; [exact Htext | done].
  - intros Hblank. cbn. unfold trim at 1.
    by rewrite (trimStart_spaces _ Hblank).
Qed.

End Forms.


(** ** More on [parseSseChunk] *)

Lemma data_marker_has_no_LF q : ~ In LF q -> ~ In LF (lit "data:" ++ q).
Proof.
  intros Hq [H|H]%in_app_or; [|done].
  cbv in H. intuition discriminate.
Qed.

Section Messages.
Context {W : Type}.
Variable JSON_parse : jsstring -> option json.

(** X14. [parseSseChunk] loses no text: the buffer is the messages it
    dispatches and the remainder it returns, joined by blank lines; and
    neither a message nor the remainder contains a blank line. *)
Theorem parseSseChunk_keeps_the_text (onEvent : option (@Sink W))
    (buffer remainder : jsstring) (w w' : W) :
  parseSseChunk JSON_parse buffer onEvent w = Normal w' remainder ->
  includes remainder [LF; LF] = false
  /\ exists messages,
       buffer = JSMore.join [LF; LF] (messages ++ [remainder])
       /\ Forall (fun message => includes message [LF; LF] = false) messages
       /\ parseSseChunk_loop JSON_parse onEvent messages w = Normal w' tt.
Proof.
  unfold parseSseChunk. intros Hrun.
  destruct (split_join LF [LF] (length buffer) buffer ltac:(lia))
    as [Hjoin Hall].
  pose proof (app_removelast_last [] (split_nonempty LF [LF] buffer)) as Hl.
  set (messages := removelast (split [LF; LF] buffer)) in *.
  set (last_piece := List.last (split [LF; LF] buffer) []) in *.
  rewrite Hl in Hjoin, Hall.
  apply Forall_app in Hall as [Hmessages Hlast].
  destruct (parseSseChunk_loop JSON_parse onEvent messages w)
    as [w1 []|w1 e] eqn:Hloop; [|discriminate].
  injection Hrun as <- <-. split.
  - apply Forall_inv in Hlast. unfold includes. subst last_piece.
    unfold jsstring in *. by rewrite Hlast.
  - exists messages. split; [symmetry; exact Hjoin|]. split; [|exact Hloop].
    eapply Forall_impl; [exact Hmessages|].
    intros m Hm. unfold includes. by rewrite Hm.
Qed.

Lemma data_line q :
  ~ In LF q ->
  List.find (fun l => startsWith l (lit "data:"))
    (map trim (split [LF] (lit "data:" ++ q)))
  = Some (lit "data:" ++ trimEnd q)
  /\ trim (replace (lit "data:" ++ trimEnd q) (lit "data:") []) = trim q.
Proof.
  intros Hq.
  pose proof (data_marker_has_no_LF q Hq) as Hline.
  rewrite (split_not_found LF [] _ (break_at_LF_absent _ Hline)).
  assert (Htrim : trim (lit "data:" ++ q) = lit "data:" ++ trimEnd q).
  { unfold trim.
    change (trimStart (lit "data:" ++ q)) with (lit "data:" ++ q).
    change (lit "data:" ++ q)
      with (lit "data" ++ 58%N :: q).
    by rewrite trimEnd_app_nonspace. }
  split.
  - cbn [map List.find]. rewrite Htrim. done.
  - change (replace (lit "data:" ++ trimEnd q) (lit "data:") [])
      with (trimEnd q).
    apply trim_trimEnd.
Qed.

(** X15. A message that is one [data:] line yields its text, trimmed, as
    payload: a buffer that holds this message and the blank line after it
    gives the sink one value, the parsed payload or, when [JSON.parse]
    rejects it, the payload itself, and leaves nothing in the buffer. *)
Theorem data_message_yields_its_payload (q : jsstring) (seen : list json) :
  ~ In LF q ->
  parseSseChunk JSON_parse (lit "data:" ++ q ++ [LF; LF]) (Some record) seen
  = Normal (seen ++ [match JSON_parse (trim q) with
                     | Some data => data
                     | None => JStr (trim q)
                     end]) [].
Proof.
  intros Hq.
  pose proof (data_marker_has_no_LF q Hq) as Hline.
  unfold parseSseChunk.
  rewrite (app_assoc (lit "data:") q).
  rewrite (split_found LF [LF] _ _ _ (break_at_blank_line _ [] Hline)).
  rewrite (split_not_found LF [LF] []) by done.
  cbn [removelast List.last parseSseChunk_loop].
  unfold parseSseChunk_message.
  destruct (data_line q Hq) as [-> ->]. cbn [app].
  by destruct (JSON_parse (trim q)).
Qed.

(** X16. Only the first [data:] line of a message counts: once a line of the
    message, trimmed, begins with [data:], the lines after it play no part
    (they are not appended to the payload). *)
Theorem first_data_line_wins (onEvent : option (@Sink W))
    (line rest : jsstring) (w : W) :
  ~ In LF line ->
  startsWith (trim line) (lit "data:") = true ->
  parseSseChunk_message JSON_parse onEvent (line ++ LF :: rest) w
  = parseSseChunk_message JSON_parse onEvent line w.
Proof.
  intros Hline Hdata. unfold parseSseChunk_message.
  rewrite (split_found LF [] _ _ _ (break_at_first_LF _ rest Hline)).
  rewrite (split_not_found LF [] _ (break_at_LF_absent _ Hline)).
  cbn [map List.find]. by rewrite Hdata.
Qed.

(** X17. The [try] block of [parseSseChunk] covers the call of the sink: when
    the sink throws on the parsed payload of a message that a blank line
    completes, the error is dropped and the sink is called once more, on
    the state the failed call left, with the text of the payload;
    [parseSseChunk] then goes on with the text that follows the blank
    line, unless this second call throws. *)
Theorem sink_error_is_retried_with_the_text (sink : @Sink W)
    (buffer remainder tail rest line : jsstring) (data : json)
    (w w1 w2 : W) (e : exn) :
  parseSseChunk JSON_parse buffer (Some sink) w = Normal w1 remainder ->
  includes ((remainder ++ tail) ++ [LF]) [LF; LF] = false ->
  List.find (fun l => startsWith l (lit "data:"))
    (map trim (split [LF] (remainder ++ tail))) = Some line ->
  JSON_parse (trim (replace line (lit "data:") [])) = Some data ->
  sink data w1 = Throw w2 e ->
  parseSseChunk JSON_parse (buffer ++ tail ++ LF :: LF :: rest) (Some sink) w =
  match sink (JStr (trim (replace line (lit "data:") []))) w2 with
  | Normal w3 _ => parseSseChunk JSON_parse rest (Some sink) w3
  | Throw w3 e' => Throw w3 e'
  end.
Proof.
  intros Hbuffer Hfirst Hline Hparse Hthrow.
  rewrite (parseSseChunk_completed JSON_parse (Some sink) buffer remainder
             tail rest w w1 Hbuffer Hfirst).
  unfold parseSseChunk_message. rewrite Hline.
  apply find_some in Hline as [_ Hdata].
  apply startsWith_data_nonempty in Hdata.
  destruct line as [|c line]; [done|].
  rewrite Hparse. cbn [call]. rewrite Hthrow.
  by destruct (sink _ w2) as [w3 []|w3 e'].
Qed.

End Messages.

(** ** More on the decoder *)

(** A byte below 128 is decoded to the code unit of the same value, when no
    character is pending. *)
Lemma decode_byte_ascii (d : TextDecoder) (b : byte) :
  bytes_needed (decoder d) = 0%N -> (Byte.to_N b < 128)%N ->
  decode_byte d b = ({| decoder := utf8_start; BOM_seen := true |},
                     [Byte.to_N b]).
Proof.
  intros Hd Hb. unfold decode_byte, utf8_byte. rewrite Hd.
  cbn [N.eqb]. unfold utf8_lead.
  destruct (N.leb_spec (Byte.to_N b) 127) as [_|]; [|lia].
  cbn [serialize]. unfold utf16.
  destruct (N.ltb_spec (Byte.to_N b) 65536) as [_|]; [|lia].
  destruct (N.eqb_spec (Byte.to_N b) 65279) as [|_]; [lia|].
  by rewrite andb_false_r.
Qed.

Lemma decode_ascii (chunk : list byte) : forall d : TextDecoder,
  bytes_needed (decoder d) = 0%N ->
  Forall (fun b => (Byte.to_N b < 128)%N) chunk ->
  snd (decode d chunk) = map Byte.to_N chunk
  /\ bytes_needed (decoder (fst (decode d chunk))) = 0%N.
Proof.
  induction chunk as [|b chunk IH]; intros d Hd Hall; [done|].
  apply Forall_cons in Hall as [Hb Hall]. cbn [decode].
  rewrite (decode_byte_ascii d b Hd Hb).
  destruct (IH {| decoder := utf8_start; BOM_seen := true |} eq_refl Hall)
    as [Htext Hstate].
  destruct (decode {| decoder := utf8_start; BOM_seen := true |} chunk)
    as [d2 out2].
  cbn [fst snd] in *. by rewrite Htext.
Qed.

(** X18. A body of ASCII bytes, however it is cut into reads, is decoded as
    the text with the same code units: the payloads handed to the sink are
    those [parseSseChunk] dispatches from that text. *)
Theorem ascii_body_is_read_as_text (JSON_parse : jsstring -> option json)
    (reads : list (list byte)) :
  Forall (fun b => (Byte.to_N b < 128)%N) (concat reads) ->
  emitted JSON_parse reads =
  state_of (parseSseChunk JSON_parse (map Byte.to_N (concat reads))
              (Some record) []).
Proof.
  intros Hascii. unfold emitted. rewrite read_loop_one_chunk.
  cbn [read_loop].
  destruct (decode_ascii (concat reads) new_TextDecoder eq_refl Hascii)
    as [Htext _].
  destruct (decode new_TextDecoder (concat reads)) as [d' txt].
  cbn [snd] in Htext. rewrite Htext. cbn [app onEvent].
  by destruct (parseSseChunk JSON_parse _ (Some record) []).
Qed.

(** ** The buffered path and polling *)

Section Buffered.
Context {W : Type}.
Variable JSON_parse : jsstring -> option json.
Variable fetch : json -> option AbortSignal -> Fetched.

(** X19. A response that does not declare an event stream, or that declares
    one but has no body, is read as one JSON document: the sink is never
    called and the state is left as it was. With a success status the
    document is returned ([{}] when the body is not JSON); with a failure
    status the call always rejects, with [Request failed] when the body is
    not JSON. *)
Theorem buffered_path_never_calls_the_sink (payload : json)
    (opts : @Options W) (response : Response) (w : W) :
  fetch payload (signal opts) = Responded response ->
  includes (default [] (content_type response)) (lit "text/event-stream")
    = false \/ body response = None ->
  (ok response = true ->
   createSynthesisJob JSON_parse fetch payload opts w
   = Normal w (Some (default (JObj []) (json_body response))))
  /\ (ok response = false ->
      exists e,
        createSynthesisJob JSON_parse fetch payload opts w = Throw w e
        /\ (json_body response = None ->
            e = Error (JStr (lit "Request failed")))).
Proof.
  intros Hfetch Hbuffered. unfold createSynthesisJob. rewrite Hfetch.
  split; intros Hok; rewrite Hok; cbn [negb].
  - destruct Hbuffered as [-> | ->]; [done|]. by destruct (includes _ _).
  - assert (Hthrow : exists e,
      match default (JObj []) (json_body response) with
      | JNull => Throw w TypeError
      | _ =>
          match prop "detail" (default (JObj []) (json_body response)) with
          | Some detail =>
              if truthy detail then Throw w (Error detail)
              else Throw w (Error (JStr (lit "Request failed")))
          | None => Throw w (Error (JStr (lit "Request failed")))
          end
      end = @Throw W (option json) w e
      /\ (json_body response = None -> e = Error (JStr (lit "Request failed")))).
    { destruct (json_body response) as [data|]; cbn -[lit prop truthy].
      - destruct data; try (eexists; split; [reflexivity | done]).
        destruct (prop "detail" (JObj props)) as [detail|];
          [destruct (truthy detail)|];
          (eexists; split; [reflexivity | done]).
      - eexists; split; [reflexivity | done]. }
    destruct Hthrow as (e & He & Hmsg). exists e. split; [|done].
    destruct Hbuffered as [-> | ->]; [done|]. by destruct (includes _ _).
Qed.

End Buffered.

Section WholeAnswer.
Variable Number : jsstring -> number.
Variable Number_toString : number -> jsstring.
Variable clock : nat -> Z.
Variable JSON_parse : jsstring -> option json.
Variable fetch : json -> option AbortSignal -> Fetched.


End WholeAnswer.

(** A document that is a [SynthesisResponse] holds its id and its status
    under their names. *)
Lemma as_SynthesisResponse_props (data : json) (d : SynthesisResponse) :
  as_SynthesisResponse data = Some d ->
  prop "job_id" data = Some (JStr (job_id d))
  /\ prop "status" data = Some (response_status d).
Proof.
  unfold as_SynthesisResponse.
  destruct (prop "job_id" data) as [[| | |i| |]|]; try discriminate.
  destruct (prop "status" data) as [s|]; [|discriminate].
  cbn [mbind option_bind as_string]. unfold as_status.
  destruct (bool_decide _); [|discriminate]. cbn [mbind option_bind].
  destruct (prop "plan" data ≫= as_plan) as [p|]; [|discriminate].
  destruct (prop "artifacts" data ≫= as_record as_string) as [a|];
    [|discriminate].
  cbn [mbind option_bind]. by intros [= <-].
Qed.

Section Polling.
Import ApiRest.
Variable fetch_url : jsstring -> FetchedStatus.
Variable clock : nat -> Z.

(** X21. [pollJob] gives [null] exactly when the request is rejected, the
    answer has a failure status, or its body is not JSON or is [null]; the
    clock is then not read. Every other answer gives a job, whatever its
    body holds: the first four fields are those of the body under their
    names (the id is the body's, whatever id was asked for), the prompt is
    empty, the progress is 100 when the status is the string [completed]
    and 50 otherwise, and two readings of the clock stamp it; the registry
    is not touched. For a body that is a [SynthesisResponse] the id and the
    status are those of the response. *)
Theorem pollJob_result (jobId : jsstring) (w : World) :
  let url := lit "/api/bark/jobs/" ++ jobId in
  let result := pollJob fetch_url clock jobId w in
  (result.1 = None <->
     (exists e, fetch_url url = RejectedWith e)
     \/ exists r, fetch_url url = RespondedWith r
          /\ (ok (response r) = false \/ json_body (response r) = None
              \/ json_body (response r) = Some JNull))
  /\ (result.1 = None -> result.2 = w)
  /\ (forall job, result.1 = Some job ->
        exists r data,
          fetch_url url = RespondedWith r
          /\ ok (response r) = true
          /\ json_body (response r) = Some data
          /\ polled_id job = prop "job_id" data
          /\ polled_status job = prop "status" data
          /\ polled_plan job = prop "plan" data
          /\ polled_artifacts job = prop "artifacts" data
          /\ polled_prompt job = []
          /\ polled_progress job =
             (if decide (prop "status" data = Some completed)
              then 100%float else 50%float)
          /\ polled_createdAt job = clock (ticks w)
          /\ polled_updatedAt job = clock (S (ticks w))
          /\ result.2 = {| jobs := jobs w; ticks := S (S (ticks w)) |}
          /\ (forall d, as_SynthesisResponse data = Some d ->
                polled_id job = Some (JStr (job_id d))
                /\ polled_status job = Some (response_status d))).
Proof.
  intros url result. subst result. unfold pollJob, fetchJson. fold url.
  destruct (fetch_url url) as [r|e] eqn:Hfetch.
  2:{ cbn. split; [|done]. split; [intros _; left; eauto | done]. }
  destruct (ok (response r)) eqn:Hok; cbn [negb].
  - destruct (json_body (response r)) as [data|] eqn:Hbody.
    2:{ cbn. split; [|done]. split; [|done].
        intros _. right. exists r. auto. }
    assert (Hnull : data = JNull \/ data <> JNull)
      by (destruct data; auto; right; discriminate).
    destruct Hnull as [->|Hne].
    { cbn. split; [|done]. split; [|done].
      intros _. right. exists r. auto. }
    assert (Hjob :
      match data with
      | JNull => (None, w)
      | _ =>
          let '(created, w0) := Date_now clock w in
          let '(updated, w1) := Date_now clock w0 in
          (Some {| polled_id := prop "job_id" data;
                   polled_status := prop "status" data;
                   polled_plan := prop "plan" data;
                   polled_artifacts := prop "artifacts" data;
                   polled_progress :=
                     if decide (prop "status" data = Some completed)
                     then 100%float else 50%float;
                   polled_createdAt := created;
                   polled_updatedAt := updated;
                   polled_prompt := [] |}, w1)
      end
      = (Some {| polled_id := prop "job_id" data;
                 polled_status := prop "status" data;
                 polled_plan := prop "plan" data;
                 polled_artifacts := prop "artifacts" data;
                 polled_progress :=
                   if decide (prop "status" data = Some completed)
                   then 100%float else 50%float;
                 polled_createdAt := clock (ticks w);
                 polled_updatedAt := clock (S (ticks w));
                 polled_prompt := [] |},
         {| jobs := jobs w; ticks := S (S (ticks w)) |})).
    { by destruct data. }
    rewrite Hjob. cbn [fst snd]. split; [|split; [done|]].
    + split; [done|]. intros [[e [=]]|(r' & [= <-] & [H|[H|H]])]; congruence.
    + intros job [= <-]. exists r, data. cbn.
      repeat (split; [done|]).
      intros d Hd. by destruct (as_SynthesisResponse_props data d Hd) as [-> ->].
  - assert (Hthrown : exists e,
      match default (JObj []) (json_body (response r)) with
      | JNull => inl (Thrown TypeError)
      | _ =>
          match prop "detail" (default (JObj []) (json_body (response r))) with
          | Some detail =>
              if truthy detail then inl (Thrown (Error detail))
              else inl (Thrown (Error (JStr (statusText r))))
          | None => inl (Thrown (Error (JStr (statusText r))))
          end
      end = (inl e : rejection + json)).
    { destruct (default (JObj []) (json_body (response r))); eauto;
        destruct (prop "detail" _) as [detail|]; eauto;
        destruct (truthy detail); eauto. }
    destruct Hthrown as [e ->]. cbn. split; [|done]. split; [|done].
    intros _. right. exists r. auto.
Qed.

End Polling.

(** A poll that the service answers with the plan of [j1]. *)
Example poll_of_planned_job :
  exists job,
    fst (ApiRest.pollJob polled_fetch clock0 (lit "j1") empty_registry)
    = Some job
    /\ ApiRest.polled_id job = Some (JStr (lit "j1"))
    /\ ApiRest.polled_status job = Some planned
    /\ ApiRest.polled_progress job = 50%float.
Proof. eexists. split; [reflexivity|]. by repeat split. Qed.

(** ** Witnesses *)

Lemma keyed_two_jobs : keyed two_jobs.
Proof.
  intros k job. unfold two_jobs. cbn [jobs].
  intros [[<- <-]|[_ [<- <-]%lookup_singleton_Some]]%lookup_insert_Some;
    reflexivity.
Qed.

Lemma stamped_empty clock : stamped clock empty_registry.
Proof. by intros k job. Qed.

Lemma clock0_monotone : monotone clock0.
Proof. intros m n Hmn. unfold clock0. lia. Qed.

Lemma planned_fetch_typed payload : typed_answers planned_fetch payload.
Proof. intros response [= <-] _ _. vm_compute. eauto. Qed.

Lemma sink_sees_emitted_witness :
  read_loop parse_go
    {| signal := None;
       onEvent := Some (handlePrompt_onEvent Number0 Number_toString0 clock0) |}
    new_TextDecoder [] go_reads (Some AbortError)
    (registry_of (job_j1 queued 10%float))
  = Throw
      (fold_left
         (after (Some (handlePrompt_onEvent Number0 Number_toString0 clock0)))
         (emitted parse_go go_reads) (registry_of (job_j1 queued 10%float)))
      AbortError.
Proof.
  apply (sink_sees_emitted parse_go
           {| signal := None;
              onEvent :=
                Some (handlePrompt_onEvent Number0 Number_toString0 clock0) |}
           go_reads (Some AbortError) (registry_of (job_j1 queued 10%float))).
  right. apply handlePrompt_onEvent_retry_safe.
Defined.

Lemma events_keep_records_witness :
  keyed (state_of (createSynthesisJob parse_go aborting_fetch (JObj [])
                     {| signal := Some 1%N;
                        onEvent :=
                          Some (handlePrompt_onEvent Number0 Number_toString0
                                  clock0) |}
                     (registry_of (job_j1 queued 10%float))))
  /\ dom (jobs (state_of (createSynthesisJob parse_go aborting_fetch (JObj [])
                            {| signal := Some 1%N;
                               onEvent :=
                                 Some (handlePrompt_onEvent Number0
                                         Number_toString0 clock0) |}
                            (registry_of (job_j1 queued 10%float)))))
     = dom (jobs (registry_of (job_j1 queued 10%float)))
  /\ core_kept (registry_of (job_j1 queued 10%float))
       (state_of (createSynthesisJob parse_go aborting_fetch (JObj [])
                    {| signal := Some 1%N;
                       onEvent :=
                         Some (handlePrompt_onEvent Number0 Number_toString0
                                 clock0) |}
                    (registry_of (job_j1 queued 10%float)))).
Proof.
  apply (events_keep_records Number0 Number_toString0 clock0 parse_go
           aborting_fetch (JObj []) (Some 1%N)
           (registry_of (job_j1 queued 10%float))).
  apply keyed_registry_of.
Defined.

(** The stream updates [j1], which turns [running]; the record of [j2],
    which no event names, is as it was. *)
Lemma other_ids_do_not_interfere_witness :
  jobs (state_of (read_loop parse_go
                    {| signal := None;
                       onEvent :=
                         Some (handlePrompt_onEvent Number0 Number_toString0
                                 clock0) |}
                    new_TextDecoder [] go_reads None two_jobs)) !! lit "j2"
  = jobs two_jobs !! lit "j2"
  /\ status <$> jobs two_jobs !! lit "j1" = Some queued
  /\ status <$>
       jobs (state_of (read_loop parse_go
                         {| signal := None;
                            onEvent :=
                              Some (handlePrompt_onEvent Number0
                                      Number_toString0 clock0) |}
                         new_TextDecoder [] go_reads None two_jobs))
         !! lit "j1"
     = Some running.
Proof.
  split; [|split; vm_compute; reflexivity].
  apply (other_ids_do_not_interfere Number0 Number_toString0 clock0 parse_go
           None go_reads None (lit "j2") two_jobs).
  - apply keyed_two_jobs.
  - intros data Hin.
    assert (Hemitted : emitted parse_go go_reads
                       = [event "j1" (Some "running") (Some 40%float)])
      by (vm_compute; reflexivity).
    rewrite Hemitted in Hin. apply list_elem_of_singleton in Hin as ->.
    discriminate.
Defined.



Lemma blank_prompt_is_not_submitted_witness :
  head (validate (buildPayload Number0 blank_form))
    = Some (lit "Prompt cannot be empty.")
  /\ handlePrompt Number0 Number_toString0 clock0 parse_nothing planned_fetch
       blank_form empty_registry = Some empty_registry.
Proof.
  apply (blank_prompt_is_not_submitted Number0 Number_toString0 clock0
           parse_nothing planned_fetch blank_form empty_registry).
  repeat constructor.
Defined.



Lemma NaN_fps_is_not_reported_witness :
  PrimFloat.is_nan (fps nan_fps_payload) = true
  /\ ~ In (lit "FPS must be greater than zero.") (validate nan_fps_payload).
Proof.
  split; [reflexivity|].
  apply (NaN_fps_is_not_reported nan_fps_payload). reflexivity.
Defined.

Lemma caption_falls_back_to_prompt_witness :
  captionText (buildPayload Number0 hello_form) <> []
  /\ (Forall (fun c => is_space c = true) (captionText_value hello_form) ->
      captionText (buildPayload Number0 hello_form)
      = text (buildPayload Number0 hello_form)).
Proof.
  apply (caption_falls_back_to_prompt Number0 hello_form).
  vm_compute. reflexivity.
Defined.


Lemma parseSseChunk_keeps_the_text_witness :
  includes (lit "data: b") [LF; LF] = false
  /\ exists messages,
       lit "data: a" ++ [LF; LF] ++ lit "data: b"
       = JSMore.join [LF; LF] (messages ++ [lit "data: b"])
       /\ Forall (fun message => includes message [LF; LF] = false) messages
       /\ parseSseChunk_loop parse_nothing (Some record) messages []
          = Normal [JStr (lit "a")] tt.
Proof.
  apply (parseSseChunk_keeps_the_text parse_nothing (Some record)
           (lit "data: a" ++ [LF; LF] ++ lit "data: b") (lit "data: b")
           [] [JStr (lit "a")]).
  vm_compute. reflexivity.
Defined.

Lemma data_message_yields_its_payload_witness :
  parseSseChunk parse_nothing (lit "data:" ++ lit " hello " ++ [LF; LF])
    (Some record) []
  = Normal ([] ++ [match parse_nothing (trim (lit " hello ")) with
                   | Some data => data
                   | None => JStr (trim (lit " hello "))
                   end]) [].
Proof.
  apply (data_message_yields_its_payload parse_nothing (lit " hello ") []).
  intros H. cbv in H. intuition discriminate.
Defined.

Lemma first_data_line_wins_witness :
  parseSseChunk_message parse_nothing (Some record)
    (lit "data: a" ++ LF :: lit "data: b") []
  = parseSseChunk_message parse_nothing (Some record) (lit "data: a") [].
Proof.
  apply (first_data_line_wins parse_nothing (Some record) (lit "data: a")
           (lit "data: b") []).
  - intros H. cbv in H. intuition discriminate.
  - vm_compute. reflexivity.
Defined.

(** [picky_sink] throws on the event that [go] parses to, and records the
    text [go] on the retry; the message that follows is dispatched too. *)
Lemma sink_error_is_retried_with_the_text_witness :
  parseSseChunk parse_go
    ([] ++ lit "data: go" ++ LF :: LF :: lit "data: x" ++ [LF; LF])
    (Some picky_sink) []
  = Normal [JStr (lit "go"); JStr (lit "x")] [].
Proof.
  etrans.
  - apply (sink_error_is_retried_with_the_text parse_go picky_sink
             [] [] (lit "data: go") (lit "data: x" ++ [LF; LF])
             (lit "data: go")
             (event "j1" (Some "running") (Some 40%float)) [] [] []
             (Error (JStr (lit "not a string"))));
      vm_compute; reflexivity.
  - vm_compute. reflexivity.
Defined.

Lemma ascii_body_is_read_as_text_witness :
  emitted parse_nothing two_reads =
  state_of (parseSseChunk parse_nothing (map Byte.to_N (concat two_reads))
              (Some record) []).
Proof.
  apply (ascii_body_is_read_as_text parse_nothing two_reads).
  repeat (constructor; [reflexivity|]). constructor.
Defined.

Lemma buffered_path_never_calls_the_sink_witness :
  (true = true ->
   createSynthesisJob parse_nothing planned_fetch (JObj [])
     {| signal := None; onEvent := Some record |} []
   = Normal [] (Some (default (JObj []) (Some planned_document))))
  /\ (true = false ->
      exists e,
        createSynthesisJob parse_nothing planned_fetch (JObj [])
          {| signal := None; onEvent := Some record |} [] = Throw [] e
        /\ (Some planned_document = None ->
            e = Error (JStr (lit "Request failed")))).
Proof.
  apply (buffered_path_never_calls_the_sink parse_nothing planned_fetch
           (JObj []) {| signal := None; onEvent := Some record |}
           {| ok := true; content_type := Some (lit "application/json");
              body := None; json_body := Some planned_document |} []).
  - reflexivity.
  - right. reflexivity.
Defined.

